(** * ThreadSafeRingBuffer: a sequential model of
      [src/thread_safe_ring_buffer.h] and the properties of its
      cursor arithmetic, occupancy counter and drop policy.

    The class is embedded shallowly.  Its members become the fields of a
    record, every method becomes a function on that record, and the
    caller-supplied callbacks become functions that receive the bytes of
    one slot together with the state of the caller ([E], whatever the
    C++ lambda captured by reference) and give back the bytes they wrote
    through the slot pointer, however many, and the new state of the
    caller.

    Integers are modelled as [Z] with the wrap-around of the C++ type
    written out: [size_t] is [size_bits] wide (a parameter of the
    development, at least 32), [uint32_t] and [int] are 32 bits wide.

    The model is sequential: one call runs to completion before the next
    one starts.  A blocking call whose wait predicate is false can then
    never be woken, which the model records as [None].  The condition
    variable notifications have no sequential effect and are omitted.

    The constructor allocates: it is modelled with the two exceptions of
    [std::vector], against the largest block the allocator grants
    ([heap_bytes], a parameter of the development like [size_bits]).

    What C++ leaves undefined stays outside the statements: with a
    capacity of 0 the [%] of the cursor arithmetic divides by zero, and a
    slot outside the storage, or a callback that writes past the end of
    the storage, is an access out of bounds.  The functions below are
    total all the same ([Z.modulo], and a write-back that leaves bytes
    out of range alone); every statement that depends on such a value
    assumes [1 <= capacity] and a storage of [item_size * capacity]
    bytes. *)

From Stdlib Require Import ZArith Lia Bool.
From Stdlib Require Import Strings.Byte.
From stdpp Require Import base numbers list.

Local Open Scope Z_scope.

Module RingBuffer.

(** ** Machine integers *)

(** [static_cast<int>] of an unsigned value: keep the low 32 bits and read
    them in two's complement. *)
Definition to_int (z : Z) : Z :=
  let r := z mod 2 ^ 32 in
  if r <? 2 ^ 31 then r else r - 2 ^ 32.

(** Arithmetic on [uint32_t] wraps modulo [2^32]. *)
Definition to_uint32 (z : Z) : Z := z mod 2 ^ 32.

Definition UINT16_MAX : Z := 65535.
Definition UINT32_MAX : Z := 2 ^ 32 - 1.

(** [static constexpr uint32_t MAX_ALLOWED_READ_DROPS = UINT16_MAX * 6;] *)
Definition MAX_ALLOWED_READ_DROPS : Z := UINT16_MAX * 6.

Definition get_max_allowed_read_drops : Z := MAX_ALLOWED_READ_DROPS.

(** ** The object *)

Record ThreadSafeRingBuffer : Type := mkRingBuffer {
  buffer : list byte;
  item_size : Z;
  max_items_count : Z;
  active_items_count : Z;
  write_idx : Z;
  read_idx : Z;
  dropped_reads : Z;
  should_always_drop_reads : bool
}.

Definition set_buffer (v : list byte) (rb : ThreadSafeRingBuffer) :=
  mkRingBuffer v (item_size rb) (max_items_count rb) (active_items_count rb)
    (write_idx rb) (read_idx rb) (dropped_reads rb)
    (should_always_drop_reads rb).

Definition set_active_items_count (v : Z) (rb : ThreadSafeRingBuffer) :=
  mkRingBuffer (buffer rb) (item_size rb) (max_items_count rb) v
    (write_idx rb) (read_idx rb) (dropped_reads rb)
    (should_always_drop_reads rb).

Definition set_write_idx (v : Z) (rb : ThreadSafeRingBuffer) :=
  mkRingBuffer (buffer rb) (item_size rb) (max_items_count rb)
    (active_items_count rb) v (read_idx rb) (dropped_reads rb)
    (should_always_drop_reads rb).

Definition set_read_idx (v : Z) (rb : ThreadSafeRingBuffer) :=
  mkRingBuffer (buffer rb) (item_size rb) (max_items_count rb)
    (active_items_count rb) (write_idx rb) v (dropped_reads rb)
    (should_always_drop_reads rb).

Definition set_dropped_reads (v : Z) (rb : ThreadSafeRingBuffer) :=
  mkRingBuffer (buffer rb) (item_size rb) (max_items_count rb)
    (active_items_count rb) (write_idx rb) (read_idx rb) v
    (should_always_drop_reads rb).

Definition set_should_always_drop_reads (v : bool) (rb : ThreadSafeRingBuffer) :=
  mkRingBuffer (buffer rb) (item_size rb) (max_items_count rb)
    (active_items_count rb) (write_idx rb) (read_idx rb) (dropped_reads rb) v.

(** The two [std::atomic_size_t] members that [increment_with_capacity]
    can be handed by reference. *)
Inductive cursor : Type := WriteIdx | ReadIdx.

Definition load (c : cursor) (rb : ThreadSafeRingBuffer) : Z :=
  match c with
  | WriteIdx => write_idx rb
  | ReadIdx => read_idx rb
  end.

Definition store (c : cursor) (v : Z) (rb : ThreadSafeRingBuffer)
  : ThreadSafeRingBuffer :=
  match c with
  | WriteIdx => set_write_idx v rb
  | ReadIdx => set_read_idx v rb
  end.

(** A callback is handed a pointer to one slot.  It receives the
    [item_size] bytes found there and gives back the bytes it wrote
    through the pointer, first byte of the slot first, together with
    whatever it captured.  Nothing holds it to [item_size] bytes: what it
    gives back beyond them lands in the slots that follow. *)
Definition callback (E : Type) : Type := list byte -> E -> list byte * E.

(** What the constructor of a C++ class can do: return the object, or
    refuse by letting an exception out. *)
Inductive construction : Type :=
  | Constructed (rb : ThreadSafeRingBuffer)
  | Rejected.

Section Operations.

Variable size_bits : Z.

(** The largest block, in bytes, the allocator grants when the buffer is
    constructed. *)
Variable heap_bytes : Z.

Definition SIZE_MAX : Z := 2 ^ size_bits - 1.

Definition PTRDIFF_MAX : Z := 2 ^ (size_bits - 1) - 1.

(** Arithmetic on [size_t] wraps modulo [2^size_bits]. *)
Definition to_size_t (z : Z) : Z := z mod 2 ^ size_bits.

(** [std::vector<uint8_t>(n)]: [n] zero bytes.  The library throws
    [std::length_error] when [n] exceeds [max_size()], which is
    [PTRDIFF_MAX] for a vector of bytes, and the allocator throws
    [std::bad_alloc] when it cannot grant [n] bytes; a vector of no
    elements allocates nothing.  [None] stands for either exception. *)
Definition vector_of_zeros (n : Z) : option (list byte) :=
  if PTRDIFF_MAX <? n then None
  else if (n =? 0) || (n <=? heap_bytes)
       then Some (replicate (Z.to_nat n) x00)
       else None.

(** The constructor.  Its parameters are [size_t]: whatever the caller
    passes is converted on the way in.  The member initialiser list
    builds the storage first, [buffer(item_size_ * items_count_)], and an
    exception of [std::vector] leaves the constructor; the body is empty
    and the sizes themselves are not looked at. *)
Definition ThreadSafeRingBuffer_ctor (item_size_ items_count_ : Z)
  : construction :=
  let item_size_ := to_size_t item_size_ in
  let items_count_ := to_size_t items_count_ in
  match vector_of_zeros (to_size_t (item_size_ * items_count_)) with
  | Some v =>
      Constructed
        {| buffer := v;
           item_size := item_size_;
           max_items_count := items_count_;
           active_items_count := 0;
           write_idx := SIZE_MAX;
           read_idx := SIZE_MAX;
           dropped_reads := 0;
           should_always_drop_reads := true |}
  | None => Rejected
  end.

Definition capacity (rb : ThreadSafeRingBuffer) : Z := max_items_count rb.

Definition size (rb : ThreadSafeRingBuffer) : Z := active_items_count rb.

Definition empty (rb : ThreadSafeRingBuffer) : bool :=
  active_items_count rb =? 0.

Definition full (rb : ThreadSafeRingBuffer) : bool :=
  active_items_count rb =? capacity rb.

(** [(idx.load() + 1) % capacity()], stored back and returned. *)
Definition increment_with_capacity (c : cursor) (rb : ThreadSafeRingBuffer)
  : Z * ThreadSafeRingBuffer :=
  let incremented := to_size_t (load c rb + 1) mod capacity rb in
  (incremented, store c incremented rb).

(** [(idx + 1) % capacity()], nothing stored. *)
Definition incremented_with_capacity (rb : ThreadSafeRingBuffer) (idx : Z) : Z :=
  to_size_t (idx + 1) mod capacity rb.

(** [std::min(active_items_count.load() + 1, capacity())] *)
Definition push (rb : ThreadSafeRingBuffer) : ThreadSafeRingBuffer :=
  set_active_items_count
    (Z.min (to_size_t (active_items_count rb + 1)) (capacity rb)) rb.

(** [static_cast<size_t>(std::max(static_cast<int>(
       active_items_count.load() - 1), 0))] *)
Definition pop (rb : ThreadSafeRingBuffer) : ThreadSafeRingBuffer :=
  set_active_items_count
    (to_size_t (Z.max (to_int (to_size_t (active_items_count rb - 1))) 0)) rb.

(** The slot at [&buffer[off]]: the [item_size] bytes found there. *)
Definition slot_at (off : Z) (rb : ThreadSafeRingBuffer) : list byte :=
  take (Z.to_nat (item_size rb)) (drop (Z.to_nat off) (buffer rb)).

(** The bytes a callback wrote through [&buffer[off]], in place: as many
    as it wrote, whether or not they fit the slot. *)
Definition store_slot (off : Z) (s : list byte) (rb : ThreadSafeRingBuffer)
  : ThreadSafeRingBuffer :=
  set_buffer (list_inserts (Z.to_nat off) s (buffer rb)) rb.

(** Runs a callback on [&buffer[idx * item_size]]. *)
Definition invoke {E : Type} (f : callback E) (idx : Z)
    (rb : ThreadSafeRingBuffer) (env : E) : ThreadSafeRingBuffer * E :=
  let off := to_size_t (idx * item_size rb) in
  let '(s, env') := f (slot_at off rb) env in
  (store_slot off s rb, env').

Definition perform_write {E : Type} (buffer_write : callback E)
    (rb : ThreadSafeRingBuffer) (env : E) : ThreadSafeRingBuffer * E :=
  let '(idx, rb1) := increment_with_capacity WriteIdx rb in
  let '(rb2, env') := invoke buffer_write idx rb1 env in
  (push rb2, env').

(** The collision test of [perform_read]. *)
Definition read_collides (rb : ThreadSafeRingBuffer) : bool :=
  incremented_with_capacity rb (read_idx rb) =? write_idx rb.

Definition perform_read {E : Type} (buffer_read : callback E)
    (rb : ThreadSafeRingBuffer) (env : E) : ThreadSafeRingBuffer * E :=
  if read_collides rb
     && (should_always_drop_reads rb
         || (dropped_reads rb <? MAX_ALLOWED_READ_DROPS))
  then (set_dropped_reads (to_uint32 (dropped_reads rb + 1)) rb, env)
  else
    let rb0 := set_dropped_reads 0 rb in
    let '(idx, rb1) := increment_with_capacity ReadIdx rb0 in
    let '(rb2, env') := invoke buffer_read idx rb1 env in
    (pop rb2, env').

(** Blocking write: the wait on [!full()] never ends when the buffer is
    full and no other call can run. *)
Definition write {E : Type} (buffer_write : callback E)
    (rb : ThreadSafeRingBuffer) (env : E) : option (ThreadSafeRingBuffer * E) :=
  let rb1 := set_should_always_drop_reads false rb in
  if full rb1 then None else Some (perform_write buffer_write rb1 env).

Definition write_overwrite {E : Type} (buffer_write : callback E)
    (rb : ThreadSafeRingBuffer) (env : E) : ThreadSafeRingBuffer * E :=
  perform_write buffer_write (set_should_always_drop_reads true rb) env.

Definition write_nonblock {E : Type} (buffer_write : callback E)
    (rb : ThreadSafeRingBuffer) (env : E) : ThreadSafeRingBuffer * E :=
  let rb1 := set_should_always_drop_reads false rb in
  if negb (full rb1) then perform_write buffer_write rb1 env else (rb1, env).

(** Blocking read: the wait on [!empty()] never ends when the buffer is
    empty and no other call can run. *)
Definition read {E : Type} (buffer_read : callback E)
    (rb : ThreadSafeRingBuffer) (env : E) : option (ThreadSafeRingBuffer * E) :=
  if negb (empty rb) then Some (perform_read buffer_read rb env) else None.

(** Timed read: with nothing to read and nobody to write, [wait_for]
    gives up after [timeout] seconds and the call returns. *)
Definition read_timeout {E : Type} (buffer_read : callback E) (timeout : Z)
    (rb : ThreadSafeRingBuffer) (env : E) : ThreadSafeRingBuffer * E :=
  if negb (empty rb) then perform_read buffer_read rb env else (rb, env).

Definition read_nonblock {E : Type} (buffer_read : callback E)
    (rb : ThreadSafeRingBuffer) (env : E) : ThreadSafeRingBuffer * E :=
  if negb (empty rb) then perform_read buffer_read rb env else (rb, env).

Definition reset_write_idx (rb : ThreadSafeRingBuffer) : ThreadSafeRingBuffer :=
  set_write_idx SIZE_MAX rb.

Definition reset_read_idx (rb : ThreadSafeRingBuffer) : ThreadSafeRingBuffer :=
  set_read_idx SIZE_MAX rb.

(** [k] calls of [read_nonblock] in a row, as a polling consumer makes. *)
Fixpoint poll {E : Type} (k : nat) (buffer_read : callback E)
    (rb : ThreadSafeRingBuffer) (env : E) : ThreadSafeRingBuffer * E :=
  match k with
  | O => (rb, env)
  | S k' =>
      let '(rb1, env1) := read_nonblock buffer_read rb env in
      poll k' buffer_read rb1 env1
  end.

(** One call on the public or test-only interface, with its callback. *)
Inductive call (E : Type) : Type :=
  | CallWrite (f : callback E)
  | CallWriteOverwrite (f : callback E)
  | CallWriteNonblock (f : callback E)
  | CallRead (f : callback E)
  | CallReadTimeout (f : callback E) (timeout : Z)
  | CallReadNonblock (f : callback E)
  | CallResetWriteIdx
  | CallResetReadIdx.

Arguments CallWrite {E} f.
Arguments CallWriteOverwrite {E} f.
Arguments CallWriteNonblock {E} f.
Arguments CallRead {E} f.
Arguments CallReadTimeout {E} f timeout.
Arguments CallReadNonblock {E} f.
Arguments CallResetWriteIdx {E}.
Arguments CallResetReadIdx {E}.

Definition run_call {E : Type} (c : call E) (rb : ThreadSafeRingBuffer)
    (env : E) : option (ThreadSafeRingBuffer * E) :=
  match c with
  | CallWrite f => write f rb env
  | CallWriteOverwrite f => Some (write_overwrite f rb env)
  | CallWriteNonblock f => Some (write_nonblock f rb env)
  | CallRead f => read f rb env
  | CallReadTimeout f t => Some (read_timeout f t rb env)
  | CallReadNonblock f => Some (read_nonblock f rb env)
  | CallResetWriteIdx => Some (reset_write_idx rb, env)
  | CallResetReadIdx => Some (reset_read_idx rb, env)
  end.

(** A sequential session: the calls run one after the other; the session
    is stuck ([None]) as soon as one of them blocks for ever. *)
Fixpoint run {E : Type} (cs : list (call E)) (rb : ThreadSafeRingBuffer)
    (env : E) : option (ThreadSafeRingBuffer * E) :=
  match cs with
  | [] => Some (rb, env)
  | c :: cs' =>
      match run_call c rb env with
      | Some (rb1, env1) => run cs' rb1 env1
      | None => None
      end
  end.

(** The callbacks of [test/ring_buffer_test.cpp].  The producer copies an
    item into the slot ([memcpy(buffer, &source[i][0], ITEM_SIZE)]), the
    consumer copies the slot out.  The caller state is a journal: the
    items handed to the buffer so far and the items received from it. *)
Record journal : Type := mkJournal {
  source : list (list byte);
  target : list (list byte)
}.

Definition produce (item : list byte) : callback journal :=
  fun _ j => (item, mkJournal (source j ++ [item]) (target j)).

Definition consume : callback journal :=
  fun s j => (s, mkJournal (source j) (target j ++ [s])).

Definition no_journal : journal := mkJournal [] [].

(** What a freshly constructed object looks like: the members as the
    initialiser list sets them for the [size_t] values [item_size_] and
    [items_count_], once the storage has been allocated. *)
Definition fresh (item_size_ items_count_ : Z) : ThreadSafeRingBuffer :=
  {| buffer := replicate (Z.to_nat (to_size_t (item_size_ * items_count_))) x00;
     item_size := item_size_;
     max_items_count := items_count_;
     active_items_count := 0;
     write_idx := SIZE_MAX;
     read_idx := SIZE_MAX;
     dropped_reads := 0;
     should_always_drop_reads := true |}.

(** The requests of a test session: the calls of the interface with the
    callbacks of the tests. *)
Inductive request : Type :=
  | ReqWrite (item : list byte)
  | ReqWriteOverwrite (item : list byte)
  | ReqWriteNonblock (item : list byte)
  | ReqRead
  | ReqReadTimeout (timeout : Z)
  | ReqReadNonblock
  | ReqResetWriteIdx
  | ReqResetReadIdx.

Definition to_call (r : request) : call journal :=
  match r with
  | ReqWrite item => CallWrite (produce item)
  | ReqWriteOverwrite item => CallWriteOverwrite (produce item)
  | ReqWriteNonblock item => CallWriteNonblock (produce item)
  | ReqRead => CallRead consume
  | ReqReadTimeout t => CallReadTimeout consume t
  | ReqReadNonblock => CallReadNonblock consume
  | ReqResetWriteIdx => CallResetWriteIdx
  | ReqResetReadIdx => CallResetReadIdx
  end.

Definition session (rs : list request) (rb : ThreadSafeRingBuffer)
    (j : journal) : option (ThreadSafeRingBuffer * journal) :=
  run (map to_call rs) rb j.

(** The sessions of the tests that do not overwrite: items of [n] bytes
    go in through [write] and [write_nonblock], come out through the three
    reads, and the write cursor is reset ([draining]) only once the
    producer is done. *)
Fixpoint fifo_session (draining : bool) (n : Z) (rs : list request) : bool :=
  match rs with
  | [] => true
  | ReqWrite item :: rs' | ReqWriteNonblock item :: rs' =>
      negb draining && (Z.of_nat (length item) =? n)
      && fifo_session false n rs'
  | ReqRead :: rs' | ReqReadTimeout _ :: rs' | ReqReadNonblock :: rs' =>
      fifo_session draining n rs'
  | ReqResetWriteIdx :: rs' => fifo_session true n rs'
  | ReqWriteOverwrite _ :: _ | ReqResetReadIdx :: _ => false
  end.

(** Where a cursor stands after [n] advances from the sentinel. *)
Definition cursor_after (cap n : Z) : Z :=
  if n =? 0 then SIZE_MAX else (n - 1) mod cap.

(** The state of a session that has not overwritten anything, told from
    its journal: [source j] are the items written, [target j] the items
    read. *)
Record fifo (draining : bool) (rb : ThreadSafeRingBuffer) (j : journal)
  : Prop := mkFifo {
  fifo_item_size : 1 <= item_size rb;
  fifo_capacity : 1 <= capacity rb;
  fifo_storage : item_size rb * capacity rb <= SIZE_MAX;
  fifo_length : Z.of_nat (length (buffer rb)) = item_size rb * capacity rb;
  fifo_items :
    Forall (fun item => Z.of_nat (length item) = item_size rb) (source j);
  fifo_prefix : target j = take (length (target j)) (source j);
  fifo_count :
    active_items_count rb =
    Z.of_nat (length (source j)) - Z.of_nat (length (target j));
  fifo_bound : 0 <= active_items_count rb <= capacity rb;
  fifo_write_idx :
    write_idx rb =
    if draining then SIZE_MAX
    else cursor_after (capacity rb) (Z.of_nat (length (source j)));
  fifo_read_idx :
    read_idx rb = cursor_after (capacity rb) (Z.of_nat (length (target j)));
  fifo_slots :
    forall k : Z,
      Z.of_nat (length (target j)) <= k < Z.of_nat (length (source j)) ->
      source j !! Z.to_nat k =
      Some (slot_at ((k mod capacity rb) * item_size rb) rb);
  fifo_flag : source j <> [] -> should_always_drop_reads rb = false;
  fifo_dropped : 0 <= dropped_reads rb <= MAX_ALLOWED_READ_DROPS
}.

(** Whether the drop policy suppresses the next read of such a session. *)
Definition suppresses (draining : bool) (rb : ThreadSafeRingBuffer) : bool :=
  negb draining && (active_items_count rb =? 1)
  && (dropped_reads rb <? MAX_ALLOWED_READ_DROPS).

(** The items of the worked example: "AAAA", "BBBB", "CCCC", "DDDD". *)
Definition AAAA : list byte := [x41; x41; x41; x41].
Definition BBBB : list byte := [x42; x42; x42; x42].
Definition CCCC : list byte := [x43; x43; x43; x43].
Definition DDDD : list byte := [x44; x44; x44; x44].

(** The allocator of the examples grants blocks of up to 16 GiB. *)
Definition heap_of_examples : Z := 2 ^ 34.

(** The size [pop] cannot cope with: one more than [INT_MAX + 1]. *)
Definition large : Z := 2 ^ 31 + 1.

(** That many one-byte items. *)
Definition large_items : list (list byte) := replicate (Z.to_nat large) [x00].

(** The buffer and the journal a test session ends with (the fresh
    buffer if the session blocks). *)
Definition state_after (isz cap : Z) (rs : list request)
  : ThreadSafeRingBuffer :=
  match session rs (fresh isz cap) no_journal with
  | Some (rb, _) => rb
  | None => fresh isz cap
  end.

Definition journal_after (isz cap : Z) (rs : list request) : journal :=
  match session rs (fresh isz cap) no_journal with
  | Some (_, j) => j
  | None => no_journal
  end.

(** What [size()] is documented to satisfy. *)
Definition occupancy_ok (rb : ThreadSafeRingBuffer) : Prop :=
  0 <= capacity rb <= SIZE_MAX /\ 0 <= size rb <= capacity rb.

(** Which calls are the producer's and which the consumer's. *)
Definition is_write_call {E : Type} (c : call E) : bool :=
  match c with
  | CallWrite _ | CallWriteOverwrite _ | CallWriteNonblock _ => true
  | _ => false
  end.

Definition is_overwrite_call {E : Type} (c : call E) : bool :=
  match c with
  | CallWriteOverwrite _ => true
  | _ => false
  end.

Definition is_read_call {E : Type} (c : call E) : bool :=
  match c with
  | CallRead _ | CallReadTimeout _ _ | CallReadNonblock _ => true
  | _ => false
  end.

Definition is_read_request (r : request) : bool :=
  match r with
  | ReqRead | ReqReadTimeout _ | ReqReadNonblock => true
  | _ => false
  end.

(** A buffer whose storage has the size its dimensions ask for and whose
    cursors are the sentinel or the index of a slot. *)
Definition in_storage (rb : ThreadSafeRingBuffer) : Prop :=
  1 <= item_size rb /\
  1 <= capacity rb /\
  item_size rb * capacity rb <= SIZE_MAX /\
  Z.of_nat (length (buffer rb)) = item_size rb * capacity rb /\
  (write_idx rb = SIZE_MAX \/ 0 <= write_idx rb < capacity rb) /\
  (read_idx rb = SIZE_MAX \/ 0 <= read_idx rb < capacity rb).

(** The slot the next advance of cursor [c] designates is inside the
    storage: its offset does not wrap, the [item_size] bytes that follow
    exist, and they are what the callback is handed. *)
Definition next_slot_in_bounds (c : cursor) (rb : ThreadSafeRingBuffer)
  : Prop :=
  let idx := incremented_with_capacity rb (load c rb) in
  0 <= idx < capacity rb /\
  to_size_t (idx * item_size rb) = idx * item_size rb /\
  idx * item_size rb + item_size rb <= Z.of_nat (length (buffer rb)) /\
  Z.of_nat (length (slot_at (to_size_t (idx * item_size rb)) rb)) =
    item_size rb.

(** What the drop policy maintains as long as no write overwrites: the
    drop counter is within the threshold, and the flag is clear on every
    buffer that has something to read. *)
Definition drops_bounded (rb : ThreadSafeRingBuffer) : Prop :=
  0 <= dropped_reads rb <= MAX_ALLOWED_READ_DROPS /\
  (should_always_drop_reads rb = false \/ active_items_count rb = 0).

(** The reads that return at once when there is nothing to read. *)
Definition is_poll_request (r : request) : bool :=
  match r with
  | ReqReadTimeout _ | ReqReadNonblock => true
  | _ => false
  end.

(** The index, among [T >= cap] items that went in through overwriting
    writes, of the item slot [i] ends up with: the expectation spelled out
    in [ReadWriteToBufferWithOverwrite]. *)
Definition survivor (cap T i : Z) : Z :=
  let m := T mod cap in
  if i <? m then T - m + i else T - m - cap + i.

(** The state of a producer that has put [items] in through overwriting
    writes: the last [capacity] of them are in the slots. *)
Record lapped (rb : ThreadSafeRingBuffer) (items : list (list byte))
  : Prop := mkLapped {
  lapped_item_size : 1 <= item_size rb;
  lapped_capacity : 1 <= capacity rb <= 2 ^ 31;
  lapped_storage : item_size rb * capacity rb <= SIZE_MAX;
  lapped_length : Z.of_nat (length (buffer rb)) = item_size rb * capacity rb;
  lapped_count :
    active_items_count rb = Z.min (Z.of_nat (length items)) (capacity rb);
  lapped_write_idx :
    write_idx rb = cursor_after (capacity rb) (Z.of_nat (length items));
  lapped_slots :
    forall k : Z,
      0 <= k ->
      Z.of_nat (length items) - capacity rb <= k < Z.of_nat (length items) ->
      items !! Z.to_nat k =
      Some (slot_at ((k mod capacity rb) * item_size rb) rb)
}.

(** A producer and a consumer in step: after a first item, every further
    item is written and the oldest unread one is read. *)
Definition in_step (items : list (list byte)) : list request :=
  flat_map (fun item => [ReqWrite item; ReqRead]) items.

(** ** Basic facts about the machine arithmetic *)

Hypothesis size_bits_ge : 32 <= size_bits.

Lemma modulus_ge : 2 ^ 32 <= 2 ^ size_bits.
Proof. apply Z.pow_le_mono_r; lia. Qed.

Lemma modulus_pos : 0 < 2 ^ size_bits.
Proof. pose proof modulus_ge. lia. Qed.

Lemma SIZE_MAX_ge : 2 ^ 32 - 1 <= SIZE_MAX.
Proof. unfold SIZE_MAX. pose proof modulus_ge. lia. Qed.

Lemma to_size_t_small z : 0 <= z <= SIZE_MAX -> to_size_t z = z.
Proof. unfold to_size_t, SIZE_MAX. intros ?. apply Z.mod_small. lia. Qed.

Lemma to_size_t_range z : 0 <= to_size_t z <= SIZE_MAX.
Proof.
  unfold to_size_t, SIZE_MAX.
  pose proof (Z.mod_pos_bound z _ modulus_pos). lia.
Qed.

Lemma to_size_t_sentinel : to_size_t (SIZE_MAX + 1) = 0.
Proof.
  unfold to_size_t, SIZE_MAX.
  replace (2 ^ size_bits - 1 + 1) with (2 ^ size_bits) by lia.
  apply Z_mod_same_full.
Qed.

Lemma to_size_t_minus_one : to_size_t (0 - 1) = SIZE_MAX.
Proof.
  unfold to_size_t, SIZE_MAX. pose proof modulus_pos.
  symmetry. apply (Z.mod_unique_pos _ _ (-1)); lia.
Qed.

Lemma to_int_small z : 0 <= z < 2 ^ 31 -> to_int z = z.
Proof.
  intros Hz. unfold to_int. cbv zeta.
  rewrite Z.mod_small by lia.
  destruct (Z.ltb_spec z (2 ^ 31)); lia.
Qed.

Lemma to_int_le z : 0 <= z -> to_int z <= z.
Proof.
  intros Hz. unfold to_int. cbv zeta.
  pose proof (Z.mod_pos_bound z (2 ^ 32) ltac:(lia)).
  pose proof (Z.mod_le z (2 ^ 32) Hz ltac:(lia)).
  destruct (Z.ltb_spec (z mod 2 ^ 32) (2 ^ 31)); lia.
Qed.

Lemma to_int_upper z : to_int z < 2 ^ 31.
Proof.
  unfold to_int. cbv zeta.
  pose proof (Z.mod_pos_bound z (2 ^ 32) ltac:(lia)).
  destruct (Z.ltb_spec (z mod 2 ^ 32) (2 ^ 31)); lia.
Qed.

Lemma to_int_SIZE_MAX : to_int SIZE_MAX = -1.
Proof.
  unfold to_int, SIZE_MAX. cbv zeta.
  assert (Hm : (2 ^ size_bits - 1) mod 2 ^ 32 = 2 ^ 32 - 1).
  { replace size_bits with (32 + (size_bits - 32)) by lia.
    rewrite Z.pow_add_r by lia.
    symmetry. apply (Z.mod_unique_pos _ _ (2 ^ (size_bits - 32) - 1)).
    - lia.
    - lia. }
  rewrite Hm. reflexivity.
Qed.

(** The values a cursor can take after its first advance. *)
Lemma incremented_range rb idx :
  1 <= capacity rb -> 0 <= incremented_with_capacity rb idx < capacity rb.
Proof.
  intros Hc. unfold incremented_with_capacity.
  apply Z.mod_pos_bound. lia.
Qed.

Lemma incremented_below_sentinel rb idx :
  0 <= idx < SIZE_MAX ->
  incremented_with_capacity rb idx = (idx + 1) mod capacity rb.
Proof.
  intros Hi. unfold incremented_with_capacity.
  rewrite to_size_t_small by lia. reflexivity.
Qed.

Lemma incremented_sentinel rb :
  1 <= capacity rb -> incremented_with_capacity rb SIZE_MAX = 0.
Proof.
  intros Hc. unfold incremented_with_capacity.
  rewrite to_size_t_sentinel. apply Z.mod_0_l. lia.
Qed.

Lemma increment_is_incremented c rb :
  increment_with_capacity c rb =
  (incremented_with_capacity rb (load c rb),
   store c (incremented_with_capacity rb (load c rb)) rb).
Proof. reflexivity. Qed.

Lemma load_store c v rb : load c (store c v rb) = v.
Proof. destruct c; reflexivity. Qed.

(** ** The shared read primitive *)

(** The two outcomes of [perform_read]: the early return that only
    counts, and the read proper. *)
Lemma perform_read_suppressed {E : Type} (f : callback E) rb env :
  read_collides rb = true ->
  should_always_drop_reads rb = true \/
    dropped_reads rb < MAX_ALLOWED_READ_DROPS ->
  perform_read f rb env =
    (set_dropped_reads (to_uint32 (dropped_reads rb + 1)) rb, env).
Proof.
  intros Hc Hd. unfold perform_read. rewrite Hc. simpl.
  destruct Hd as [-> | Hd]; [reflexivity |].
  apply Z.ltb_lt in Hd. rewrite Hd, orb_true_r. reflexivity.
Qed.

Lemma perform_read_completes {E : Type} (f : callback E) rb env :
  read_collides rb
    && (should_always_drop_reads rb
        || (dropped_reads rb <? MAX_ALLOWED_READ_DROPS)) = false ->
  let idx := incremented_with_capacity rb (read_idx rb) in
  let off := to_size_t (idx * item_size rb) in
  let r := f (slot_at off rb) env in
  perform_read f rb env =
    (pop (store_slot off (fst r) (set_read_idx idx (set_dropped_reads 0 rb))),
     snd r).
Proof.
  intros Hc. unfold perform_read. rewrite Hc. cbv zeta.
  unfold increment_with_capacity, invoke. simpl.
  unfold incremented_with_capacity, capacity, slot_at. simpl.
  destruct (f _ env) as [s env']. reflexivity.
Qed.

Lemma forced_read_condition rb :
  should_always_drop_reads rb = false ->
  MAX_ALLOWED_READ_DROPS <= dropped_reads rb ->
  read_collides rb
    && (should_always_drop_reads rb
        || (dropped_reads rb <? MAX_ALLOWED_READ_DROPS)) = false.
Proof.
  intros -> Hd. simpl.
  destruct (Z.ltb_spec (dropped_reads rb) MAX_ALLOWED_READ_DROPS); [lia |].
  apply andb_false_r.
Qed.

Lemma to_uint32_succ d : 0 <= d < UINT32_MAX -> to_uint32 (d + 1) = d + 1.
Proof.
  unfold to_uint32, UINT32_MAX. intros Hd. apply Z.mod_small. lia.
Qed.

(** C1. The collision/drop policy of [perform_read].  When the slot the
    read cursor would advance to is the one the write cursor holds, and
    either [should_always_drop_reads] is set or fewer than
    [MAX_ALLOWED_READ_DROPS] reads were dropped in a row, the read is
    suppressed: whatever the callback is, the caller state comes back
    untouched (the callback did not run), [read_idx], the occupancy and
    the storage are unchanged, and [dropped_reads] is incremented by one
    (the [uint32_t] increment, which is [+ 1] below [UINT32_MAX], hence
    always when the threshold is what suppresses).  With the collision
    but the flag clear and the threshold reached, the read proceeds: the
    callback runs on the slot after the read cursor and the cursor
    advances.  Every read that completes leaves [dropped_reads] at 0.
    [read], [read_timeout] and [read_nonblock] all come down to
    [perform_read] once the buffer is not empty. *)
Theorem perform_read_drop_policy {E : Type} (f : callback E) rb env :
  0 <= dropped_reads rb <= UINT32_MAX ->
  (read_collides rb = true ->
   should_always_drop_reads rb = true \/
     dropped_reads rb < MAX_ALLOWED_READ_DROPS ->
   let rb' := fst (perform_read f rb env) in
   snd (perform_read f rb env) = env /\
   read_idx rb' = read_idx rb /\
   active_items_count rb' = active_items_count rb /\
   buffer rb' = buffer rb /\
   write_idx rb' = write_idx rb /\
   dropped_reads rb' = to_uint32 (dropped_reads rb + 1) /\
   (dropped_reads rb < UINT32_MAX ->
    dropped_reads rb' = dropped_reads rb + 1) /\
   (should_always_drop_reads rb = false ->
    dropped_reads rb' = dropped_reads rb + 1)) /\
  (read_collides rb = true ->
   should_always_drop_reads rb = false ->
   MAX_ALLOWED_READ_DROPS <= dropped_reads rb ->
   let idx := incremented_with_capacity rb (read_idx rb) in
   let off := to_size_t (idx * item_size rb) in
   let rb' := fst (perform_read f rb env) in
   snd (perform_read f rb env) = snd (f (slot_at off rb) env) /\
   read_idx rb' = idx /\
   active_items_count rb' = active_items_count (pop rb)) /\
  (read_collides rb
     && (should_always_drop_reads rb
         || (dropped_reads rb <? MAX_ALLOWED_READ_DROPS)) = false ->
   dropped_reads (fst (perform_read f rb env)) = 0) /\
  (empty rb = false ->
   read f rb env = Some (perform_read f rb env) /\
   (forall timeout, read_timeout f timeout rb env = perform_read f rb env) /\
   read_nonblock f rb env = perform_read f rb env).
Proof.
  intros Hrange. split; [| split; [| split]]; cycle 3.
  { intros He. unfold read, read_timeout, read_nonblock. rewrite He.
    split_and!; reflexivity. }
  - intros Hc Hd. cbv zeta.
    rewrite (perform_read_suppressed f rb env Hc Hd). simpl.
    repeat split; try reflexivity.
    + intros Hlt. apply to_uint32_succ. lia.
    + intros Hflag. destruct Hd as [Hd | Hd]; [congruence |].
      apply to_uint32_succ. unfold MAX_ALLOWED_READ_DROPS, UINT16_MAX in Hd.
      unfold UINT32_MAX. lia.
  - intros Hc Hflag Hd. cbv zeta.
    rewrite (perform_read_completes f rb env (forced_read_condition rb Hflag Hd)).
    simpl. repeat split; reflexivity.
  - intros Hcond.
    rewrite (perform_read_completes f rb env Hcond). reflexivity.
Qed.

(** ** The occupancy counter *)

Lemma pop_value_range a :
  0 <= Z.max (to_int a) 0 < 2 ^ 31.
Proof. pose proof (to_int_upper a). lia. Qed.

Lemma pop_exact rb :
  1 <= active_items_count rb <= 2 ^ 31 ->
  active_items_count (pop rb) = active_items_count rb - 1.
Proof.
  intros Ha. unfold pop. simpl.
  pose proof SIZE_MAX_ge.
  rewrite (to_size_t_small (active_items_count rb - 1)) by lia.
  rewrite to_int_small by lia.
  rewrite Z.max_l by lia. apply to_size_t_small. lia.
Qed.

Lemma pop_at_zero rb :
  active_items_count rb = 0 -> active_items_count (pop rb) = 0.
Proof.
  intros Ha. unfold pop. simpl. rewrite Ha.
  rewrite to_size_t_minus_one, to_int_SIZE_MAX.
  pose proof SIZE_MAX_ge. apply to_size_t_small. lia.
Qed.

Lemma pop_decreases rb :
  1 <= active_items_count rb <= SIZE_MAX ->
  0 <= active_items_count (pop rb) < active_items_count rb.
Proof.
  intros Ha. unfold pop. simpl.
  rewrite (to_size_t_small (active_items_count rb - 1)) by lia.
  pose proof (to_int_le (active_items_count rb - 1) ltac:(lia)).
  pose proof (pop_value_range (active_items_count rb - 1)).
  pose proof SIZE_MAX_ge.
  rewrite to_size_t_small by lia. lia.
Qed.

Lemma push_exact rb :
  0 <= active_items_count rb < capacity rb -> capacity rb <= SIZE_MAX ->
  active_items_count (push rb) = active_items_count rb + 1.
Proof.
  intros Ha Hc. unfold push. simpl.
  rewrite to_size_t_small by lia. lia.
Qed.

Lemma push_saturates rb :
  active_items_count rb = capacity rb -> 0 <= capacity rb < SIZE_MAX ->
  active_items_count (push rb) = capacity rb.
Proof.
  intros Ha Hc. unfold push. simpl.
  rewrite to_size_t_small by lia. lia.
Qed.

Lemma push_bounded rb :
  0 <= capacity rb -> 0 <= active_items_count (push rb) <= capacity rb.
Proof.
  intros Hc. unfold push. simpl.
  pose proof (to_size_t_range (active_items_count rb + 1)). lia.
Qed.

(** ** The shared write primitive *)

Lemma perform_write_unfold {E : Type} (f : callback E) rb env :
  let idx := incremented_with_capacity rb (write_idx rb) in
  let off := to_size_t (idx * item_size rb) in
  let r := f (slot_at off rb) env in
  perform_write f rb env =
    (push (store_slot off (fst r) (set_write_idx idx rb)), snd r).
Proof.
  cbv zeta. unfold perform_write, increment_with_capacity, invoke. simpl.
  unfold incremented_with_capacity, capacity, slot_at. simpl.
  destruct (f _ env) as [s env']. reflexivity.
Qed.

(** ** The constructor *)

Lemma PTRDIFF_MAX_ge : 2 ^ 31 - 1 <= PTRDIFF_MAX.
Proof.
  unfold PTRDIFF_MAX.
  assert (2 ^ 31 <= 2 ^ (size_bits - 1)) by (apply Z.pow_le_mono_r; lia).
  lia.
Qed.

Lemma vector_of_zeros_empty : vector_of_zeros 0 = Some [].
Proof.
  unfold vector_of_zeros. pose proof PTRDIFF_MAX_ge.
  destruct (Z.ltb_spec PTRDIFF_MAX 0); [lia | reflexivity].
Qed.

Lemma vector_of_zeros_some n v :
  vector_of_zeros n = Some v -> v = replicate (Z.to_nat n) x00.
Proof.
  unfold vector_of_zeros.
  destruct (PTRDIFF_MAX <? n); [discriminate |].
  destruct ((n =? 0) || (n <=? heap_bytes)); [| discriminate].
  intros H. injection H as <-. reflexivity.
Qed.

Lemma vector_of_zeros_none n :
  vector_of_zeros n = None <->
  PTRDIFF_MAX < n \/ (n <> 0 /\ heap_bytes < n).
Proof.
  unfold vector_of_zeros.
  destruct (Z.ltb_spec PTRDIFF_MAX n) as [Hm | Hm].
  { split; [intros _; left; exact Hm | reflexivity]. }
  destruct (Z.eqb_spec n 0) as [H0 | H0]; simpl.
  { split; [discriminate | lia]. }
  destruct (Z.leb_spec n heap_bytes) as [Hh | Hh].
  - split; [discriminate | lia].
  - split; [intros _; right; lia | reflexivity].
Qed.

(** What the constructor returns, when it returns, is the fresh object of
    the converted sizes. *)
Lemma ctor_constructed a b rb :
  ThreadSafeRingBuffer_ctor a b = Constructed rb ->
  rb = fresh (to_size_t a) (to_size_t b).
Proof.
  unfold ThreadSafeRingBuffer_ctor. cbv zeta.
  destruct (vector_of_zeros _) as [v |] eqn:Hv; [| discriminate].
  apply vector_of_zeros_some in Hv. subst v.
  intros H. injection H as <-. reflexivity.
Qed.

(** It refuses exactly when [std::vector] throws. *)
Lemma ctor_rejected a b :
  ThreadSafeRingBuffer_ctor a b = Rejected <->
  PTRDIFF_MAX < to_size_t (to_size_t a * to_size_t b) \/
  (to_size_t (to_size_t a * to_size_t b) <> 0 /\
   heap_bytes < to_size_t (to_size_t a * to_size_t b)).
Proof.
  rewrite <- vector_of_zeros_none.
  unfold ThreadSafeRingBuffer_ctor. cbv zeta.
  destruct (vector_of_zeros _) as [v |]; split; congruence.
Qed.

(** Sizes whose storage [std::vector] can provide are constructed. *)
Lemma ctor_fresh a b :
  0 <= a <= SIZE_MAX -> 0 <= b <= SIZE_MAX ->
  a * b <= PTRDIFF_MAX -> a * b <= heap_bytes ->
  ThreadSafeRingBuffer_ctor a b = Constructed (fresh a b).
Proof.
  intros Ha Hb Hm Hh.
  assert (Hmax : PTRDIFF_MAX < SIZE_MAX).
  { unfold PTRDIFF_MAX, SIZE_MAX.
    replace size_bits with (size_bits - 1 + 1) at 2 by lia.
    rewrite Z.pow_add_r by lia.
    assert (0 < 2 ^ (size_bits - 1)) by (apply Z.pow_pos_nonneg; lia). lia. }
  assert (Hab : 0 <= a * b) by nia.
  unfold ThreadSafeRingBuffer_ctor. cbv zeta.
  rewrite (to_size_t_small a), (to_size_t_small b) by lia.
  rewrite (to_size_t_small (a * b)) by lia.
  unfold vector_of_zeros.
  destruct (Z.ltb_spec PTRDIFF_MAX (a * b)); [lia |].
  destruct (Z.leb_spec (a * b) heap_bytes); [| lia].
  rewrite orb_true_r. unfold fresh.
  rewrite (to_size_t_small (a * b)) by lia. reflexivity.
Qed.

(** C3, as the code has it.  Degenerate sizes are not rejected.  For
    every pair of [size_t] values of which the item size or the capacity
    is below 1, the constructor returns an object: its storage is empty,
    it has the item size and the capacity given, occupancy 0, both cursors
    at [SIZE_MAX], no dropped read and [should_always_drop_reads] set.
    The constructor does not look at the sizes; when it refuses,
    [std::vector] has thrown, and that takes a byte count other than 0. *)
Theorem degenerate_sizes_are_constructed (item_size_ items_count_ : Z) :
  0 <= item_size_ <= SIZE_MAX ->
  0 <= items_count_ <= SIZE_MAX ->
  item_size_ < 1 \/ items_count_ < 1 ->
  (exists rb,
     ThreadSafeRingBuffer_ctor item_size_ items_count_ = Constructed rb /\
     buffer rb = [] /\
     item_size rb = item_size_ /\
     capacity rb = items_count_ /\
     size rb = 0 /\
     write_idx rb = SIZE_MAX /\
     read_idx rb = SIZE_MAX /\
     dropped_reads rb = 0 /\
     should_always_drop_reads rb = true) /\
  ThreadSafeRingBuffer_ctor item_size_ items_count_ <> Rejected /\
  (forall a b,
     ThreadSafeRingBuffer_ctor a b = Rejected ->
     to_size_t a <> 0 /\ to_size_t b <> 0).
Proof.
  intros Hs Hc Hdeg.
  assert (Hz : item_size_ * items_count_ = 0) by nia.
  assert (Hctor : ThreadSafeRingBuffer_ctor item_size_ items_count_ =
                  Constructed
                    (mkRingBuffer [] item_size_ items_count_ 0 SIZE_MAX
                       SIZE_MAX 0 true)).
  { unfold ThreadSafeRingBuffer_ctor. cbv zeta.
    rewrite (to_size_t_small item_size_), (to_size_t_small items_count_)
      by assumption.
    rewrite Hz. pose proof SIZE_MAX_ge.
    rewrite (to_size_t_small 0) by lia.
    rewrite vector_of_zeros_empty. reflexivity. }
  split_and!.
  - eexists. split; [exact Hctor |]. simpl. repeat split; reflexivity.
  - rewrite Hctor. discriminate.
  - intros a b Hrej. apply ctor_rejected in Hrej.
    pose proof PTRDIFF_MAX_ge as HP. pose proof SIZE_MAX_ge as HM.
    assert (Hn : to_size_t (to_size_t a * to_size_t b) <> 0) by lia.
    split; intros H0; apply Hn; rewrite H0.
    + change (0 * to_size_t b) with 0. apply to_size_t_small. lia.
    + rewrite Z.mul_0_r. apply to_size_t_small. lia.
Qed.

(** C4. [write_nonblock] on a full buffer drops the item silently: the
    callback does not run (the caller state comes back untouched whatever
    the callback is) and the storage, the write cursor and the occupancy
    are unchanged.  On a buffer that is not full it is the shared write
    primitive (after clearing [should_always_drop_reads]): the write cursor
    advances, the callback runs on the slot it now designates and the
    occupancy goes through [push]. *)
Theorem write_nonblock_drops_when_full {E : Type} (f : callback E) rb env :
  (full rb = true ->
   let rb' := fst (write_nonblock f rb env) in
   snd (write_nonblock f rb env) = env /\
   buffer rb' = buffer rb /\
   write_idx rb' = write_idx rb /\
   active_items_count rb' = active_items_count rb) /\
  (full rb = false ->
   let rb0 := set_should_always_drop_reads false rb in
   let idx := incremented_with_capacity rb (write_idx rb) in
   let off := to_size_t (idx * item_size rb) in
   let r := f (slot_at off rb) env in
   write_nonblock f rb env = perform_write f rb0 env /\
   write_nonblock f rb env =
     (push (store_slot off (fst r) (set_write_idx idx rb0)), snd r)).
Proof.
  split.
  - intros Hfull. cbv zeta. unfold write_nonblock.
    change (full (set_should_always_drop_reads false rb)) with (full rb).
    rewrite Hfull. simpl. repeat split; reflexivity.
  - intros Hfull. cbv zeta. unfold write_nonblock.
    change (full (set_should_always_drop_reads false rb)) with (full rb).
    rewrite Hfull. simpl. split; [reflexivity |].
    apply (perform_write_unfold f (set_should_always_drop_reads false rb) env).
Qed.

(** C6. Both cursors start at the sentinel [SIZE_MAX]; the sentinel is not
    0 and is no slot index of any buffer (slot indices are below the
    capacity, itself a [size_t]); and whatever the capacity (at least 1),
    the first advance of a cursor that holds the sentinel stores and
    returns [(SIZE_MAX + 1) % capacity], which is 0 because [SIZE_MAX + 1]
    wraps to 0 in [size_t]. *)
Theorem sentinel_first_advance :
  (forall item_size_ items_count_ rb,
     ThreadSafeRingBuffer_ctor item_size_ items_count_ = Constructed rb ->
     write_idx rb = SIZE_MAX /\ read_idx rb = SIZE_MAX) /\
  SIZE_MAX <> 0 /\
  (forall rb k,
     capacity rb <= SIZE_MAX -> 0 <= k < capacity rb -> k <> SIZE_MAX) /\
  to_size_t (SIZE_MAX + 1) = 0 /\
  (forall c rb,
     1 <= capacity rb -> load c rb = SIZE_MAX ->
     increment_with_capacity c rb = (0, store c 0 rb) /\
     load c (snd (increment_with_capacity c rb)) = 0).
Proof.
  split_and!.
  - intros item_size_ items_count_ rb Hctor.
    unfold ThreadSafeRingBuffer_ctor in Hctor. cbv zeta in Hctor.
    destruct (vector_of_zeros _) as [v |]; [| discriminate].
    injection Hctor as <-. split; reflexivity.
  - pose proof SIZE_MAX_ge. lia.
  - intros rb k Hc Hk. lia.
  - apply to_size_t_sentinel.
  - intros c rb Hc Hl.
    rewrite increment_is_incremented, Hl, incremented_sentinel by assumption.
    split; [reflexivity | apply load_store].
Qed.

(** C7. [increment_with_capacity] computes [(c + 1) % capacity] on the
    cursor it is given (in [size_t] arithmetic: it is [(c + 1) mod
    capacity] for every [c] below [SIZE_MAX] and 0 at [SIZE_MAX]), stores
    that value into the cursor, touching nothing else, and returns it;
    [incremented_with_capacity] computes the same value from a cursor
    value and depends on the capacity only; and what
    [increment_with_capacity] returns is [incremented_with_capacity] of
    the value the cursor held. *)
Theorem increment_with_capacity_spec (c : cursor) rb :
  1 <= capacity rb ->
  0 <= load c rb <= SIZE_MAX ->
  let v := fst (increment_with_capacity c rb) in
  let rb' := snd (increment_with_capacity c rb) in
  v = to_size_t (load c rb + 1) mod capacity rb /\
  (load c rb < SIZE_MAX -> v = (load c rb + 1) mod capacity rb) /\
  (load c rb = SIZE_MAX -> v = 0) /\
  0 <= v < capacity rb /\
  load c rb' = v /\
  rb' = store c v rb /\
  incremented_with_capacity rb (load c rb) =
    to_size_t (load c rb + 1) mod capacity rb /\
  (forall rb2 idx,
     capacity rb2 = capacity rb ->
     incremented_with_capacity rb2 idx = incremented_with_capacity rb idx) /\
  v = incremented_with_capacity rb (load c rb).
Proof.
  intros Hc Hl. cbv zeta. rewrite increment_is_incremented. simpl.
  repeat split.
  - intros Hlt. apply incremented_below_sentinel. lia.
  - intros ->. apply incremented_sentinel. exact Hc.
  - apply incremented_range. exact Hc.
  - apply incremented_range. exact Hc.
  - apply load_store.
  - intros rb2 idx Hcap. unfold incremented_with_capacity. rewrite Hcap.
    reflexivity.
Qed.

(** While the write cursor holds the sentinel the collision test of
    [perform_read] cannot succeed: the slot after the read cursor is below
    the capacity, hence below [SIZE_MAX].  So every [perform_read] in such
    a state runs the callback on that slot, advances the read cursor to it,
    resets [dropped_reads] and takes the occupancy through [pop], which
    lowers it by one as long as no more than [2^31] items are buffered. *)
Lemma sentinel_write_idx_never_collides {E : Type} (f : callback E) rb env :
  1 <= capacity rb <= SIZE_MAX ->
  write_idx rb = SIZE_MAX ->
  let idx := incremented_with_capacity rb (read_idx rb) in
  let off := to_size_t (idx * item_size rb) in
  let rb' := fst (perform_read f rb env) in
  idx < capacity rb /\
  idx <> SIZE_MAX /\
  read_collides rb = false /\
  snd (perform_read f rb env) = snd (f (slot_at off rb) env) /\
  read_idx rb' = idx /\
  dropped_reads rb' = 0 /\
  active_items_count rb' = active_items_count (pop rb) /\
  (1 <= active_items_count rb <= SIZE_MAX ->
   active_items_count rb' < active_items_count rb) /\
  (1 <= active_items_count rb <= 2 ^ 31 ->
   active_items_count rb' = active_items_count rb - 1).
Proof.
  intros Hc Hw. cbv zeta.
  pose proof (incremented_range rb (read_idx rb) ltac:(lia)) as Hr.
  assert (Hn : read_collides rb = false).
  { unfold read_collides. apply Z.eqb_neq. lia. }
  assert (Hcond : read_collides rb
     && (should_always_drop_reads rb
         || (dropped_reads rb <? MAX_ALLOWED_READ_DROPS)) = false)
    by (rewrite Hn; reflexivity).
  rewrite (perform_read_completes f rb env Hcond). simpl.
  repeat split; try lia; try assumption.
  - intros Ha. apply (pop_decreases rb). exact Ha.
  - intros Ha. apply (pop_exact rb). exact Ha.
Qed.

(** ** Polling a colliding slot *)

Lemma set_dropped_reads_id rb : set_dropped_reads (dropped_reads rb) rb = rb.
Proof. destruct rb. reflexivity. Qed.

Lemma read_nonblock_suppressed {E : Type} (f : callback E) rb env :
  empty rb = false ->
  read_collides rb = true ->
  should_always_drop_reads rb = true \/
    dropped_reads rb < MAX_ALLOWED_READ_DROPS ->
  read_nonblock f rb env =
    (set_dropped_reads (to_uint32 (dropped_reads rb + 1)) rb, env).
Proof.
  intros He Hc Hd. unfold read_nonblock. rewrite He. simpl.
  apply perform_read_suppressed; assumption.
Qed.

Lemma poll_app {E : Type} (f : callback E) k1 k2 rb env :
  poll (k1 + k2) f rb env =
  poll k2 f (fst (poll k1 f rb env)) (snd (poll k1 f rb env)).
Proof.
  revert rb env. induction k1 as [| k1 IH]; intros rb env; simpl.
  - reflexivity.
  - destruct (read_nonblock f rb env) as [rb1 env1]. apply IH.
Qed.

(** With [should_always_drop_reads] set there is no way out of a
    collision: however often the consumer polls, only the drop counter
    moves. *)
Lemma poll_overwrite_mode {E : Type} (f : callback E) k :
  forall rb env,
    empty rb = false ->
    read_collides rb = true ->
    should_always_drop_reads rb = true ->
    exists d, poll k f rb env = (set_dropped_reads d rb, env).
Proof.
  induction k as [| k IH]; intros rb env He Hc Hf; simpl.
  - exists (dropped_reads rb). rewrite set_dropped_reads_id. reflexivity.
  - rewrite read_nonblock_suppressed by auto.
    destruct (IH (set_dropped_reads (to_uint32 (dropped_reads rb + 1)) rb)
                env He Hc Hf) as [d Hd].
    exists d. rewrite Hd. reflexivity.
Qed.

(** With the flag clear every suppressed poll counts towards the
    threshold. *)
Lemma poll_threshold_mode {E : Type} (f : callback E) k :
  forall rb env,
    empty rb = false ->
    read_collides rb = true ->
    should_always_drop_reads rb = false ->
    0 <= dropped_reads rb ->
    k = O \/ dropped_reads rb + Z.of_nat k <= MAX_ALLOWED_READ_DROPS ->
    poll k f rb env =
      (set_dropped_reads (dropped_reads rb + Z.of_nat k) rb, env).
Proof.
  induction k as [| k IH]; intros rb env He Hc Hf Hd0 Hk; simpl poll.
  - change (Z.of_nat 0) with 0. rewrite Z.add_0_r, set_dropped_reads_id.
    reflexivity.
  - destruct Hk as [Hk | Hk]; [discriminate |].
    rewrite read_nonblock_suppressed by (auto; right; lia).
    rewrite to_uint32_succ
      by (unfold UINT32_MAX, MAX_ALLOWED_READ_DROPS, UINT16_MAX in *; lia).
    rewrite (IH (set_dropped_reads (dropped_reads rb + 1) rb) env He Hc Hf)
      by (simpl; lia).
    simpl. unfold set_dropped_reads. simpl. do 2 f_equal. lia.
Qed.

(** C10. A [write_nonblock] that finds the buffer full transfers nothing,
    yet it clears [should_always_drop_reads], and that flag is all it
    changes.  The drop policy changes with it: where the consumer's next
    slot collides with the write cursor and a preceding [write_overwrite]
    had set the flag, polling was suppressed for ever; after the dropped
    [write_nonblock] the polls are suppressed only until [dropped_reads]
    reaches [MAX_ALLOWED_READ_DROPS], and the next one runs the callback
    and advances the read cursor. *)
Theorem dropped_write_nonblock_clears_flag {E : Type} (f g : callback E)
    rb env :
  1 <= capacity rb ->
  full rb = true ->
  0 <= dropped_reads rb <= UINT32_MAX ->
  let rb' := fst (write_nonblock f rb env) in
  write_nonblock f rb env = (set_should_always_drop_reads false rb, env) /\
  should_always_drop_reads rb' = false /\
  buffer rb' = buffer rb /\
  item_size rb' = item_size rb /\
  max_items_count rb' = max_items_count rb /\
  active_items_count rb' = active_items_count rb /\
  write_idx rb' = write_idx rb /\
  read_idx rb' = read_idx rb /\
  dropped_reads rb' = dropped_reads rb /\
  (read_collides rb = true ->
   (should_always_drop_reads rb = true ->
    forall k,
      snd (poll k g rb env) = env /\
      read_idx (fst (poll k g rb env)) = read_idx rb /\
      active_items_count (fst (poll k g rb env)) = active_items_count rb) /\
   (let k := Z.to_nat (MAX_ALLOWED_READ_DROPS - dropped_reads rb) in
    let idx := incremented_with_capacity rb (read_idx rb) in
    let off := to_size_t (idx * item_size rb) in
    snd (poll k g rb' env) = env /\
    read_idx (fst (poll k g rb' env)) = read_idx rb /\
    snd (poll (k + 1) g rb' env) = snd (g (slot_at off rb) env) /\
    read_idx (fst (poll (k + 1) g rb' env)) = idx)).
Proof.
  intros Hcap Hfull Hd. cbv zeta.
  assert (Hwn : write_nonblock f rb env =
                (set_should_always_drop_reads false rb, env)).
  { unfold write_nonblock.
    change (full (set_should_always_drop_reads false rb)) with (full rb).
    rewrite Hfull. reflexivity. }
  rewrite Hwn. simpl.
  assert (He : empty rb = false).
  { unfold full, empty in *. apply Z.eqb_eq in Hfull. apply Z.eqb_neq. lia. }
  assert (Hpoll :
    poll (Z.to_nat (MAX_ALLOWED_READ_DROPS - dropped_reads rb)) g
      (set_should_always_drop_reads false rb) env =
    (set_dropped_reads
       (dropped_reads rb +
        Z.of_nat (Z.to_nat (MAX_ALLOWED_READ_DROPS - dropped_reads rb)))
       (set_should_always_drop_reads false rb), env) \/
    read_collides rb = false).
  { destruct (read_collides rb) eqn:Hc; [left | right; reflexivity].
    pose proof (poll_threshold_mode g
      (Z.to_nat (MAX_ALLOWED_READ_DROPS - dropped_reads rb))
      (set_should_always_drop_reads false rb) env He Hc eq_refl) as P.
    change (dropped_reads (set_should_always_drop_reads false rb))
      with (dropped_reads rb) in P.
    apply P; lia. }
  do 9 (split; [reflexivity |]).
  intros Hc. split.
  - intros Hf k.
    destruct (poll_overwrite_mode g k rb env He Hc Hf) as [d ->].
    repeat split; reflexivity.
  - destruct Hpoll as [Hpoll | Hpoll]; [| congruence].
    rewrite poll_app, Hpoll. simpl. unfold read_nonblock.
    change (empty (set_dropped_reads _ _)) with (empty rb). rewrite He. simpl.
    rewrite perform_read_completes
      by (apply forced_read_condition; simpl; [reflexivity | lia]).
    repeat split; reflexivity.
Qed.

(** ** Slots of the storage *)

Lemma slice_inserts_same (buf s : list byte) (off n : nat) :
  length s = n -> (off + n <= length buf)%nat ->
  take n (drop off (list_inserts off s buf)) = s.
Proof.
  intros Hs Hb.
  apply list_eq. intros i.
  destruct (decide (i < n)%nat) as [Hi | Hi].
  - rewrite lookup_take_lt, lookup_drop by lia.
    rewrite list_lookup_inserts by lia.
    f_equal. lia.
  - rewrite lookup_take_ge by lia.
    symmetry. apply lookup_ge_None. lia.
Qed.

Lemma slice_inserts_other (buf s : list byte) (off off' n : nat) :
  length s = n ->
  (off' + n <= off \/ off + n <= off')%nat ->
  take n (drop off' (list_inserts off s buf)) =
  take n (drop off' buf).
Proof.
  intros Hs Hd. apply list_eq. intros i.
  destruct (decide (i < n)%nat) as [Hi | Hi].
  - rewrite !lookup_take_lt, !lookup_drop by lia.
    destruct Hd as [Hd | Hd].
    + apply list_lookup_inserts_lt. lia.
    + apply list_lookup_inserts_ge. lia.
  - rewrite !lookup_take_ge by lia. reflexivity.
Qed.

Lemma inserts_slice_id (buf : list byte) (off n : nat) :
  list_inserts off (take n (drop off buf)) buf = buf.
Proof.
  apply list_eq. intros j.
  destruct (decide (j < off)%nat) as [Hlt | Hge].
  { apply list_lookup_inserts_lt. exact Hlt. }
  destruct (decide (off + length (take n (drop off buf)) <= j)%nat)
    as [Hout | Hin].
  { apply list_lookup_inserts_ge. exact Hout. }
  assert (Hlen : (length (take n (drop off buf)) <= n)%nat)
    by (rewrite length_take; lia).
  assert (Hjb : (j < length buf)%nat).
  { rewrite length_take, length_drop in Hin. lia. }
  rewrite list_lookup_inserts by lia.
  rewrite lookup_take_lt by lia.
  rewrite lookup_drop. f_equal. lia.
Qed.

(** ** Sessions that keep the order of the items *)

Lemma mod_distinct a b n : 0 < b - a < n -> a mod n <> b mod n.
Proof.
  intros H Heq.
  assert (Hz : (b - a) mod n = 0).
  { rewrite Zminus_mod, Heq, Z.sub_diag. apply Z.mod_0_l. lia. }
  rewrite Z.mod_small in Hz by lia. lia.
Qed.

Lemma cursor_after_succ cap n : 0 <= n -> cursor_after cap (n + 1) = n mod cap.
Proof.
  intros Hn. unfold cursor_after.
  destruct (Z.eqb_spec (n + 1) 0); [lia |].
  f_equal. lia.
Qed.

Lemma advance_cursor_after rb n :
  1 <= capacity rb <= SIZE_MAX -> 0 <= n ->
  incremented_with_capacity rb (cursor_after (capacity rb) n) =
  n mod capacity rb.
Proof.
  intros Hc Hn. unfold cursor_after.
  destruct (Z.eqb_spec n 0) as [-> | Hne].
  - rewrite incremented_sentinel by lia. symmetry. apply Z.mod_0_l. lia.
  - pose proof (Z.mod_pos_bound (n - 1) (capacity rb) ltac:(lia)).
    rewrite incremented_below_sentinel by lia.
    rewrite Zplus_mod_idemp_l. f_equal. lia.
Qed.

Lemma slot_offsets_disjoint i j cap isz :
  0 <= i < cap -> 0 <= j < cap -> i <> j -> 1 <= isz ->
  (Z.to_nat (i * isz) + Z.to_nat isz <= Z.to_nat (j * isz) \/
   Z.to_nat (j * isz) + Z.to_nat isz <= Z.to_nat (i * isz))%nat.
Proof.
  intros Hi Hj Hne Hs.
  destruct (Z.lt_ge_cases i j) as [Hlt | Hge]; [left | right].
  - assert (i * isz + isz <= j * isz) by nia.
    assert (0 <= i * isz) by nia. lia.
  - assert (j * isz + isz <= i * isz) by nia.
    assert (0 <= j * isz) by nia. lia.
Qed.

Lemma slot_offset_fits i cap isz :
  0 <= i < cap -> 1 <= isz -> isz * cap <= SIZE_MAX ->
  0 <= i * isz /\ i * isz + isz <= isz * cap /\ i * isz <= SIZE_MAX.
Proof. intros Hi Hs Hm. repeat split; nia. Qed.

Lemma fifo_capacity_fits d rb j : fifo d rb j -> capacity rb <= SIZE_MAX.
Proof.
  intros F. pose proof (fifo_item_size _ _ _ F).
  pose proof (fifo_capacity _ _ _ F). pose proof (fifo_storage _ _ _ F). nia.
Qed.

Lemma fifo_lengths d rb j :
  fifo d rb j -> (length (target j) <= length (source j))%nat.
Proof.
  intros F. pose proof (fifo_count _ _ _ F). pose proof (fifo_bound _ _ _ F).
  lia.
Qed.

(** A freshly constructed buffer of sound dimensions starts a session. *)
Lemma fifo_fresh isz cap :
  1 <= isz -> 1 <= cap -> isz * cap <= SIZE_MAX ->
  fifo false (fresh isz cap) no_journal.
Proof.
  intros Hs Hc Hm. unfold fresh. simpl.
  constructor; simpl; try (lia || reflexivity || congruence).
  - rewrite length_replicate, to_size_t_small by nia. nia.
  - constructor.
  - unfold MAX_ALLOWED_READ_DROPS, UINT16_MAX. lia.
Qed.

(** The shared write primitive on a session that has room. *)
Lemma fifo_perform_write rb j item :
  fifo false rb j ->
  Z.of_nat (length item) = item_size rb ->
  full rb = false ->
  exists rb',
    perform_write (produce item) (set_should_always_drop_reads false rb) j =
      (rb', mkJournal (source j ++ [item]) (target j)) /\
    fifo false rb' (mkJournal (source j ++ [item]) (target j)) /\
    dropped_reads rb' = dropped_reads rb.
Proof.
  intros F Hitem Hfull.
  pose proof (fifo_capacity_fits _ _ _ F) as Hcm.
  pose proof (fifo_lengths _ _ _ F) as Hlen.
  destruct F as [Hs Hc Hm Hl Hit Hp Hn Hb Hw Hr Hsl Hf Hd].
  assert (Hroom : active_items_count rb < capacity rb).
  { unfold full in Hfull. apply Z.eqb_neq in Hfull. lia. }
  set (W := Z.of_nat (length (source j))) in *.
  set (R := Z.of_nat (length (target j))) in *.
  assert (Hidx : incremented_with_capacity rb (write_idx rb) = W mod capacity rb).
  { rewrite Hw. apply advance_cursor_after; lia. }
  pose proof (Z.mod_pos_bound W (capacity rb) ltac:(lia)) as HWm.
  destruct (slot_offset_fits (W mod capacity rb) (capacity rb) (item_size rb)
              HWm Hs Hm) as (Ho0 & Ho1 & Ho2).
  eexists. split; [| split].
  - rewrite perform_write_unfold. cbv zeta.
    change (incremented_with_capacity (set_should_always_drop_reads false rb)
              (write_idx (set_should_always_drop_reads false rb)))
      with (incremented_with_capacity rb (write_idx rb)).
    rewrite Hidx. unfold produce. simpl. reflexivity.
  - unfold capacity in *. constructor; simpl.
    + exact Hs.
    + exact Hc.
    + exact Hm.
    + rewrite length_inserts. exact Hl.
    + apply Forall_app. split; [exact Hit |].
      constructor; [exact Hitem | constructor].
    + rewrite take_app_le by lia. exact Hp.
    + rewrite length_app. simpl. rewrite to_size_t_small by lia. lia.
    + rewrite to_size_t_small by lia. lia.
    + rewrite length_app. simpl.
      replace (Z.of_nat (length (source j) + 1)) with (W + 1) by lia.
      symmetry. apply cursor_after_succ. lia.
    + exact Hr.
    + intros k Hk. rewrite length_app in Hk. simpl in Hk.
      unfold slot_at. simpl.
      rewrite (to_size_t_small (W mod max_items_count rb * item_size rb))
        by lia.
      subst W R.
      destruct (Z.eq_dec k (Z.of_nat (length (source j)))) as [-> | Hne].
      * rewrite Nat2Z.id.
        rewrite lookup_app_r by lia. rewrite Nat.sub_diag. simpl.
        f_equal. symmetry. apply slice_inserts_same; lia.
      * rewrite lookup_app_l by lia.
        rewrite (Hsl k) by lia. f_equal. unfold slot_at. symmetry.
        apply slice_inserts_other; [lia |].
        pose proof (Z.mod_pos_bound k (max_items_count rb) ltac:(lia)).
        apply (slot_offsets_disjoint _ _ (max_items_count rb)); try lia.
        apply mod_distinct. lia.
    + reflexivity.
    + exact Hd.
  - reflexivity.
Qed.

Lemma journal_eta j : mkJournal (source j) (target j) = j.
Proof. destruct j. reflexivity. Qed.

(** In a session the collision test and the drop policy come down to:
    one item is left, the producer has not been reset, and the threshold
    is not reached. *)
Lemma fifo_suppresses d rb j :
  fifo d rb j ->
  empty rb = false ->
  read_collides rb
    && (should_always_drop_reads rb
        || (dropped_reads rb <? MAX_ALLOWED_READ_DROPS)) = suppresses d rb /\
  incremented_with_capacity rb (read_idx rb) =
    Z.of_nat (length (target j)) mod capacity rb.
Proof.
  intros F He.
  pose proof (fifo_capacity_fits _ _ _ F) as Hcm.
  destruct F as [Hs Hc Hm Hl Hit Hp Hn Hb Hw Hr Hsl Hf Hd].
  assert (Hne : 1 <= active_items_count rb).
  { unfold empty in He. apply Z.eqb_neq in He. lia. }
  assert (Hidx : incremented_with_capacity rb (read_idx rb) =
                 Z.of_nat (length (target j)) mod capacity rb).
  { rewrite Hr. apply advance_cursor_after; lia. }
  split; [| exact Hidx].
  assert (Hflag : should_always_drop_reads rb = false).
  { apply Hf. intros Hnil. rewrite Hnil in Hn. simpl in Hn. lia. }
  rewrite Hflag. simpl. unfold suppresses. f_equal.
  unfold read_collides. rewrite Hidx, Hw.
  pose proof (Z.mod_pos_bound (Z.of_nat (length (target j))) (capacity rb)
                ltac:(lia)) as Hrm.
  destruct d; simpl.
  - apply Z.eqb_neq. lia.
  - unfold cursor_after.
    destruct (Z.eqb_spec (Z.of_nat (length (source j))) 0) as [H0 | H0];
      [lia |].
    destruct (Z.eqb_spec (active_items_count rb) 1) as [H1 | H1].
    + apply Z.eqb_eq. f_equal. lia.
    + apply Z.eqb_neq. apply mod_distinct. lia.
Qed.

(** The shared read primitive on a session that has something to read:
    either the drop policy suppresses it, or the consumer receives the
    oldest item it has not seen yet. *)
Lemma fifo_perform_read d rb j :
  fifo d rb j ->
  capacity rb <= 2 ^ 31 ->
  empty rb = false ->
  let j' :=
    mkJournal (source j)
      (if suppresses d rb then target j
       else take (S (length (target j))) (source j)) in
  exists rb',
    perform_read consume rb j = (rb', j') /\
    fifo d rb' j' /\
    dropped_reads rb' = (if suppresses d rb then dropped_reads rb + 1 else 0).
Proof.
  intros F Hint He. cbv zeta.
  destruct (fifo_suppresses d rb j F He) as [Hcond Hidx].
  pose proof (fifo_capacity_fits _ _ _ F) as Hcm.
  pose proof (fifo_lengths _ _ _ F) as Hlen.
  destruct F as [Hs Hc Hm Hl Hit Hp Hn Hb Hw Hr Hsl Hf Hd].
  assert (Hne : 1 <= active_items_count rb).
  { unfold empty in He. apply Z.eqb_neq in He. lia. }
  destruct (suppresses d rb) eqn:Hsup.
  - (* suppressed *)
    assert (Hlt : dropped_reads rb < MAX_ALLOWED_READ_DROPS).
    { unfold suppresses in Hsup. apply andb_true_iff in Hsup as [_ Hsup].
      apply Z.ltb_lt in Hsup. exact Hsup. }
    assert (Hinc : to_uint32 (dropped_reads rb + 1) = dropped_reads rb + 1).
    { apply to_uint32_succ.
      unfold UINT32_MAX, MAX_ALLOWED_READ_DROPS, UINT16_MAX in *. lia. }
    eexists. split; [| split].
    + unfold perform_read. rewrite Hcond, Hinc, journal_eta. reflexivity.
    + constructor; simpl; try assumption. lia.
    + reflexivity.
  - (* the consumer receives item number [length (target j)] *)
    set (R := Z.of_nat (length (target j))) in *.
    pose proof (Z.mod_pos_bound R (capacity rb) ltac:(lia)) as HRm.
    destruct (slot_offset_fits (R mod capacity rb) (capacity rb) (item_size rb)
                HRm Hs Hm) as (Ho0 & Ho1 & Ho2).
    assert (Hslot : source j !! length (target j) =
                    Some (slot_at (R mod capacity rb * item_size rb) rb)).
    { rewrite <- (Nat2Z.id (length (target j))). apply Hsl. lia. }
    assert (Htake : take (S (length (target j))) (source j) =
                    target j ++ [slot_at (R mod capacity rb * item_size rb) rb]).
    { rewrite (take_S_r _ _ _ Hslot). rewrite <- Hp. reflexivity. }
    assert (Hlen' : length (take (S (length (target j))) (source j)) =
                    S (length (target j))).
    { rewrite length_take. lia. }
    eexists. split; [| split].
    + rewrite (perform_read_completes consume rb j Hcond). cbv zeta.
      rewrite Hidx. rewrite (to_size_t_small (R mod capacity rb * item_size rb))
        by lia.
      unfold consume. simpl. rewrite Htake. reflexivity.
    + unfold capacity in *. constructor; simpl.
      * exact Hs.
      * exact Hc.
      * exact Hm.
      * rewrite length_inserts. exact Hl.
      * exact Hit.
      * rewrite Hlen'. reflexivity.
      * rewrite Hlen'.
        rewrite (to_size_t_small (active_items_count rb - 1)) by lia.
        rewrite to_int_small by lia.
        rewrite Z.max_l by lia. rewrite to_size_t_small by lia. lia.
      * rewrite (to_size_t_small (active_items_count rb - 1)) by lia.
        rewrite to_int_small by lia.
        rewrite Z.max_l by lia. rewrite to_size_t_small by lia. lia.
      * exact Hw.
      * rewrite Hlen'. replace (Z.of_nat (S (length (target j)))) with (R + 1)
          by lia.
        symmetry. apply cursor_after_succ. lia.
      * intros k Hk. rewrite Hlen' in Hk.
        rewrite (Hsl k) by lia. f_equal.
        unfold slot_at. simpl. rewrite inserts_slice_id. reflexivity.
      * exact Hf.
      * unfold MAX_ALLOWED_READ_DROPS, UINT16_MAX. lia.
    + reflexivity.
Qed.

Lemma perform_write_dims {E : Type} (f : callback E) rb env :
  item_size (fst (perform_write f rb env)) = item_size rb /\
  max_items_count (fst (perform_write f rb env)) = max_items_count rb.
Proof. rewrite perform_write_unfold. simpl. split; reflexivity. Qed.

Lemma perform_read_dims {E : Type} (f : callback E) rb env :
  item_size (fst (perform_read f rb env)) = item_size rb /\
  max_items_count (fst (perform_read f rb env)) = max_items_count rb.
Proof.
  destruct (read_collides rb
            && (should_always_drop_reads rb
                || (dropped_reads rb <? MAX_ALLOWED_READ_DROPS))) eqn:Hc.
  - unfold perform_read. rewrite Hc. simpl. split; reflexivity.
  - rewrite (perform_read_completes f rb env Hc). simpl. split; reflexivity.
Qed.

Lemma fifo_clear_flag d rb j :
  fifo d rb j -> fifo d (set_should_always_drop_reads false rb) j.
Proof.
  intros [Hs Hc Hm Hl Hit Hp Hn Hb Hw Hr Hsl Hf Hd].
  constructor; simpl; try assumption. reflexivity.
Qed.

Lemma fifo_reset_write_idx d rb j :
  fifo d rb j -> fifo true (reset_write_idx rb) j.
Proof.
  intros [Hs Hc Hm Hl Hit Hp Hn Hb Hw Hr Hsl Hf Hd].
  constructor; simpl; try assumption. reflexivity.
Qed.

(** A blocking write returns when there is room. *)
Lemma fifo_write rb j item :
  fifo false rb j ->
  Z.of_nat (length item) = item_size rb ->
  active_items_count rb < capacity rb ->
  exists rb',
    write (produce item) rb j =
      Some (rb', mkJournal (source j ++ [item]) (target j)) /\
    fifo false rb' (mkJournal (source j ++ [item]) (target j)) /\
    dropped_reads rb' = dropped_reads rb /\
    item_size rb' = item_size rb /\
    capacity rb' = capacity rb.
Proof.
  intros F Hitem Hroom.
  assert (Hfull : full rb = false) by (unfold full; apply Z.eqb_neq; lia).
  destruct (fifo_perform_write rb j item F Hitem Hfull) as (rb' & Hw & F' & Hd).
  exists rb'. unfold write.
  change (full (set_should_always_drop_reads false rb)) with (full rb).
  rewrite Hfull, Hw.
  pose proof (perform_write_dims (produce item)
                (set_should_always_drop_reads false rb) j) as [H1 H2].
  rewrite Hw in H1, H2. simpl in H1, H2. unfold capacity. auto.
Qed.

(** A blocking read returns when the buffer is not empty. *)
Lemma fifo_read d rb j :
  fifo d rb j ->
  capacity rb <= 2 ^ 31 ->
  1 <= active_items_count rb ->
  let j' :=
    mkJournal (source j)
      (if suppresses d rb then target j
       else take (S (length (target j))) (source j)) in
  exists rb',
    read consume rb j = Some (rb', j') /\
    fifo d rb' j' /\
    dropped_reads rb' = (if suppresses d rb then dropped_reads rb + 1 else 0) /\
    item_size rb' = item_size rb /\
    capacity rb' = capacity rb.
Proof.
  intros F Hint Hne. cbv zeta.
  assert (He : empty rb = false) by (unfold empty; apply Z.eqb_neq; lia).
  destruct (fifo_perform_read d rb j F Hint He) as (rb' & Hr & F' & Hd).
  exists rb'. unfold read. rewrite He. simpl. rewrite Hr.
  pose proof (perform_read_dims consume rb j) as [H1 H2].
  rewrite Hr in H1, H2. simpl in H1, H2. unfold capacity. auto.
Qed.

(** One request of a session keeps the session in order. *)
Lemma fifo_request d rb j r rs rb' j' :
  fifo d rb j ->
  capacity rb <= 2 ^ 31 ->
  fifo_session d (item_size rb) (r :: rs) = true ->
  run_call (to_call r) rb j = Some (rb', j') ->
  exists d',
    fifo d' rb' j' /\
    fifo_session d' (item_size rb') rs = true /\
    capacity rb' = capacity rb.
Proof.
  intros F Hint Hs Hrun.
  destruct r as [item | item | item | | t | | |]; simpl in Hs, Hrun;
    try discriminate.
  - (* write *)
    apply andb_true_iff in Hs as [Hs Hrs].
    apply andb_true_iff in Hs as [Hd Hitem].
    destruct d; [discriminate |]. apply Z.eqb_eq in Hitem.
    unfold write in Hrun.
    change (full (set_should_always_drop_reads false rb)) with (full rb) in Hrun.
    destruct (full rb) eqn:Hfull; [discriminate |].
    destruct (fifo_perform_write rb j item F Hitem Hfull) as (rb1 & Hw & F' & _).
    pose proof (perform_write_dims (produce item)
                  (set_should_always_drop_reads false rb) j) as [H1 H2].
    rewrite Hw in Hrun, H1, H2. injection Hrun as <- <-. simpl in H1, H2.
    exists false. rewrite H1. unfold capacity. auto.
  - (* write_nonblock *)
    apply andb_true_iff in Hs as [Hs Hrs].
    apply andb_true_iff in Hs as [Hd Hitem].
    destruct d; [discriminate |]. apply Z.eqb_eq in Hitem.
    unfold write_nonblock in Hrun.
    change (full (set_should_always_drop_reads false rb)) with (full rb) in Hrun.
    destruct (full rb) eqn:Hfull; simpl in Hrun.
    + injection Hrun as <- <-. exists false.
      split; [apply fifo_clear_flag; exact F | auto].
    + destruct (fifo_perform_write rb j item F Hitem Hfull)
        as (rb1 & Hw & F' & _).
      pose proof (perform_write_dims (produce item)
                    (set_should_always_drop_reads false rb) j) as [H1 H2].
      rewrite Hw in Hrun, H1, H2. injection Hrun as <- <-. simpl in H1, H2.
      exists false. rewrite H1. unfold capacity. auto.
  - (* read *)
    unfold read in Hrun. destruct (empty rb) eqn:He; [discriminate |].
    simpl in Hrun.
    destruct (fifo_perform_read d rb j F Hint He) as (rb1 & Hr & F' & _).
    pose proof (perform_read_dims consume rb j) as [H1 H2].
    rewrite Hr in Hrun, H1, H2. injection Hrun as <- <-. simpl in H1, H2.
    exists d. rewrite H1. unfold capacity. auto.
  - (* read_timeout *)
    unfold read_timeout in Hrun. destruct (empty rb) eqn:He; simpl in Hrun.
    + injection Hrun as <- <-. exists d. auto.
    + destruct (fifo_perform_read d rb j F Hint He) as (rb1 & Hr & F' & _).
      pose proof (perform_read_dims consume rb j) as [H1 H2].
      rewrite Hr in Hrun, H1, H2. injection Hrun as <- <-. simpl in H1, H2.
      exists d. rewrite H1. unfold capacity. auto.
  - (* read_nonblock *)
    unfold read_nonblock in Hrun. destruct (empty rb) eqn:He; simpl in Hrun.
    + injection Hrun as <- <-. exists d. auto.
    + destruct (fifo_perform_read d rb j F Hint He) as (rb1 & Hr & F' & _).
      pose proof (perform_read_dims consume rb j) as [H1 H2].
      rewrite Hr in Hrun, H1, H2. injection Hrun as <- <-. simpl in H1, H2.
      exists d. rewrite H1. unfold capacity. auto.
  - (* reset_write_idx *)
    injection Hrun as <- <-. exists true.
    split; [apply (fifo_reset_write_idx d); exact F | auto].
Qed.

Lemma fifo_run rs :
  forall d rb j rb' j',
    fifo d rb j ->
    capacity rb <= 2 ^ 31 ->
    fifo_session d (item_size rb) rs = true ->
    session rs rb j = Some (rb', j') ->
    exists d', fifo d' rb' j' /\ capacity rb' = capacity rb.
Proof.
  induction rs as [| r rs IH]; intros d rb j rb' j' F Hint Hs Hrun.
  - injection Hrun as <- <-. exists d. auto.
  - unfold session in Hrun. simpl in Hrun.
    destruct (run_call (to_call r) rb j) as [[rb1 j1] |] eqn:Hcall;
      [| discriminate].
    destruct (fifo_request d rb j r rs rb1 j1 F Hint Hs Hcall)
      as (d1 & F1 & Hs1 & Hc1).
    destruct (IH d1 rb1 j1 rb' j' F1 ltac:(lia) Hs1 Hrun) as (d' & F' & Hc').
    exists d'. split; [exact F' | lia].
Qed.

Lemma session_app rs1 rs2 rb j :
  session (rs1 ++ rs2) rb j =
  match session rs1 rb j with
  | Some (rb1, j1) => session rs2 rb1 j1
  | None => None
  end.
Proof.
  unfold session. revert rb j.
  induction rs1 as [| r rs1 IH]; intros rb j; simpl.
  - reflexivity.
  - destruct (run_call (to_call r) rb j) as [[rb1 j1] |]; [apply IH | reflexivity].
Qed.

(** Blocking writes in a row all return as long as there is room. *)
Lemma fifo_writes items :
  forall rb j,
    fifo false rb j ->
    Forall (fun item => Z.of_nat (length item) = item_size rb) items ->
    active_items_count rb + Z.of_nat (length items) <= capacity rb ->
    exists rb',
      session (map ReqWrite items) rb j =
        Some (rb', mkJournal (source j ++ items) (target j)) /\
      fifo false rb' (mkJournal (source j ++ items) (target j)) /\
      dropped_reads rb' = dropped_reads rb /\
      item_size rb' = item_size rb /\
      capacity rb' = capacity rb.
Proof.
  induction items as [| item items IH]; intros rb j F Hit Hroom.
  - exists rb. simpl. rewrite app_nil_r, journal_eta. auto.
  - apply Forall_cons in Hit as [Hitem Hit]. simpl length in Hroom.
    destruct (fifo_write rb j item F Hitem ltac:(lia))
      as (rb1 & Hw & F1 & Hd1 & Hs1 & Hc1).
    destruct (IH rb1 _ F1) as (rb' & Hrun & F' & Hd' & Hs' & Hc').
    + rewrite Hs1. exact Hit.
    + pose proof (fifo_count _ _ _ F) as Hn.
      pose proof (fifo_count _ _ _ F1) as Hn1. simpl in Hn1.
      rewrite length_app in Hn1. simpl in Hn1. lia.
    + simpl in Hrun, F'. rewrite <- app_assoc in Hrun, F'. simpl in Hrun, F'.
      exists rb'. unfold session. simpl. rewrite Hw.
      split_and!; try assumption; congruence.
Qed.

(** Blocking reads in a row each deliver the next item, as long as they
    stay clear of the last one written (or the write cursor was reset). *)
Lemma fifo_reads k :
  forall d rb j,
    fifo d rb j ->
    capacity rb <= 2 ^ 31 ->
    (if d then Z.of_nat k <= active_items_count rb
     else Z.of_nat k < active_items_count rb \/ k = O) ->
    exists rb',
      session (replicate k ReqRead) rb j =
        Some (rb',
              mkJournal (source j) (take (length (target j) + k) (source j))) /\
      fifo d rb'
        (mkJournal (source j) (take (length (target j) + k) (source j))) /\
      (k <> O -> dropped_reads rb' = 0) /\
      (k = O -> rb' = rb) /\
      item_size rb' = item_size rb /\
      capacity rb' = capacity rb.
Proof.
  induction k as [| k IH]; intros d rb j F Hint Hk.
  - exists rb. simpl. rewrite Nat.add_0_r, <- (fifo_prefix _ _ _ F), journal_eta.
    split_and!; auto. congruence.
  - assert (Hne : 1 <= active_items_count rb) by (destruct d; lia).
    assert (Hsup : suppresses d rb = false).
    { unfold suppresses. destruct d; simpl; [reflexivity |].
      destruct (Z.eqb_spec (active_items_count rb) 1); [lia | reflexivity]. }
    destruct (fifo_read d rb j F Hint Hne) as (rb1 & Hr & F1 & Hd1 & Hs1 & Hc1).
    rewrite Hsup in Hr, F1, Hd1.
    pose proof (fifo_count _ _ _ F) as Hn.
    pose proof (fifo_count _ _ _ F1) as Hn1. simpl in Hn1.
    pose proof (fifo_lengths _ _ _ F) as Hlen.
    assert (Hlen1 : length (take (S (length (target j))) (source j)) =
                    S (length (target j))) by (rewrite length_take; lia).
    rewrite Hlen1 in Hn1.
    destruct (IH d rb1 _ F1 ltac:(lia)) as (rb' & Hrun & F' & Hd' & _ & Hs' & Hc').
    + destruct d; lia.
    + simpl in Hrun, F'. rewrite Hlen1 in Hrun, F'.
      replace (S (length (target j)) + k)%nat
        with (length (target j) + S k)%nat in Hrun, F' by lia.
      exists rb'. unfold session. simpl. rewrite Hr.
      split_and!; try assumption; try congruence.
      intros _. destruct k as [| k'].
      * simpl in Hrun. unfold session in Hrun. simpl in Hrun.
        injection Hrun as <-. exact Hd1.
      * apply Hd'. discriminate.
Qed.

(** ** Occupancy stays within the capacity *)

Lemma pop_bounded rb :
  0 <= active_items_count rb <= SIZE_MAX ->
  0 <= active_items_count (pop rb) <= active_items_count rb.
Proof.
  intros Ha. destruct (Z.eq_dec (active_items_count rb) 0) as [H0 | H0].
  - rewrite (pop_at_zero rb H0). lia.
  - pose proof (pop_decreases rb ltac:(lia)). lia.
Qed.

Lemma perform_write_occupancy {E : Type} (f : callback E) rb env :
  occupancy_ok rb ->
  occupancy_ok (fst (perform_write f rb env)) /\
  capacity (fst (perform_write f rb env)) = capacity rb.
Proof.
  intros [Hc Ha]. rewrite perform_write_unfold. cbv zeta.
  unfold occupancy_ok, size, capacity in *. simpl.
  pose proof (to_size_t_range (active_items_count rb + 1)). lia.
Qed.

Lemma perform_read_occupancy {E : Type} (f : callback E) rb env :
  occupancy_ok rb ->
  occupancy_ok (fst (perform_read f rb env)) /\
  capacity (fst (perform_read f rb env)) = capacity rb.
Proof.
  intros [Hc Ha].
  destruct (read_collides rb
            && (should_always_drop_reads rb
                || (dropped_reads rb <? MAX_ALLOWED_READ_DROPS))) eqn:Hcond.
  - unfold perform_read. rewrite Hcond. simpl.
    unfold occupancy_ok, size, capacity in *. simpl. lia.
  - rewrite (perform_read_completes f rb env Hcond). cbv zeta.
    unfold occupancy_ok, size, capacity in *.
    pose proof (pop_bounded rb ltac:(lia)) as Hp.
    unfold pop in *. simpl in *. lia.
Qed.

Lemma run_call_occupancy {E : Type} (c : call E) rb env rb' env' :
  occupancy_ok rb ->
  run_call c rb env = Some (rb', env') ->
  occupancy_ok rb' /\ capacity rb' = capacity rb.
Proof.
  intros Hok Hrun.
  assert (Hflag : forall b, occupancy_ok (set_should_always_drop_reads b rb))
    by (intros b; exact Hok).
  destruct c as [f | f | f | f | f t | f | |]; simpl in Hrun.
  - unfold write in Hrun.
    destruct (full _); [discriminate |]. injection Hrun as Hrun.
    pose proof (perform_write_occupancy f _ env (Hflag false)) as H.
    rewrite Hrun in H. exact H.
  - injection Hrun as Hrun. unfold write_overwrite in Hrun.
    pose proof (perform_write_occupancy f _ env (Hflag true)) as H.
    rewrite Hrun in H. exact H.
  - injection Hrun as Hrun. unfold write_nonblock in Hrun.
    destruct (negb _).
    + pose proof (perform_write_occupancy f _ env (Hflag false)) as H.
      rewrite Hrun in H. exact H.
    + injection Hrun as <- _. split; [apply Hflag | reflexivity].
  - unfold read in Hrun.
    destruct (negb _); [| discriminate]. injection Hrun as Hrun.
    pose proof (perform_read_occupancy f rb env Hok) as H.
    rewrite Hrun in H. exact H.
  - injection Hrun as Hrun. unfold read_timeout in Hrun.
    destruct (negb _).
    + pose proof (perform_read_occupancy f rb env Hok) as H.
      rewrite Hrun in H. exact H.
    + injection Hrun as <- _. auto.
  - injection Hrun as Hrun. unfold read_nonblock in Hrun.
    destruct (negb _).
    + pose proof (perform_read_occupancy f rb env Hok) as H.
      rewrite Hrun in H. exact H.
    + injection Hrun as <- _. auto.
  - injection Hrun as <- _. split; [exact Hok | reflexivity].
  - injection Hrun as <- _. split; [exact Hok | reflexivity].
Qed.

(** X1. Whatever the calls and their callbacks, [size()] stays between 0 and
    [capacity()], and the capacity never changes. *)
Theorem size_within_capacity {E : Type} (cs : list (call E)) :
  forall rb env rb' env',
    occupancy_ok rb ->
    run cs rb env = Some (rb', env') ->
    0 <= size rb' <= capacity rb' /\ capacity rb' = capacity rb.
Proof.
  induction cs as [| c cs IH]; intros rb env rb' env' Hok Hrun; simpl in Hrun.
  - injection Hrun as <- _. destruct Hok. auto.
  - destruct (run_call c rb env) as [[rb1 env1] |] eqn:Hc; [| discriminate].
    destruct (run_call_occupancy c rb env rb1 env1 Hok Hc) as [Hok1 Hcap1].
    destruct (IH rb1 env1 rb' env' Hok1 Hrun) as [Hs Hcap].
    split; [exact Hs | congruence].
Qed.

(** ** Writes followed by reads *)

(** X2. For capacities up to [2^31], a run of [N <= capacity]
    blocking writes followed by [N] blocking reads delivers the first
    [N - 1] items in the order written; the last read returns without
    running its callback; and after [reset_write_idx] one more read
    delivers the last item and leaves the buffer empty. *)
Theorem writes_then_reads_keep_order isz cap (items : list (list byte)) :
  1 <= isz ->
  1 <= Z.of_nat (length items) <= cap ->
  cap <= 2 ^ 31 ->
  isz * cap <= SIZE_MAX ->
  Forall (fun item => Z.of_nat (length item) = isz) items ->
  let N := length items in
  exists rb1 rb2 rb3 j1,
    session (map ReqWrite items ++ replicate (N - 1) ReqRead)
      (fresh isz cap) no_journal = Some (rb1, j1) /\
    source j1 = items /\
    target j1 = take (N - 1) items /\
    read consume rb1 j1 = Some (rb2, j1) /\
    session (map ReqWrite items ++ replicate N ReqRead)
      (fresh isz cap) no_journal = Some (rb2, j1) /\
    size rb2 = 1 /\
    dropped_reads rb2 = 1 /\
    session [ReqResetWriteIdx; ReqRead] rb2 j1 =
      Some (rb3, mkJournal items items) /\
    empty rb3 = true.
Proof.
  intros Hs HN Hint Hm Hit. cbv zeta.
  pose proof (fifo_fresh isz cap Hs ltac:(lia) Hm) as F0.
  destruct (fifo_writes items (fresh isz cap) no_journal F0 Hit)
    as (rbw & Hw & Fw & Hdw & Hsw & Hcw).
  { simpl. lia. }
  simpl in Hw, Fw, Hdw, Hsw, Hcw.
  pose proof (fifo_count _ _ _ Fw) as Hnw. simpl in Hnw.
  destruct (fifo_reads (length items - 1)%nat false rbw _ Fw) as
    (rb1 & Hr & F1 & Hd1 & He1 & Hs1 & Hc1).
  { rewrite Hcw. exact Hint. }
  { left. lia. }
  simpl in Hr, F1.
  pose proof (fifo_count _ _ _ F1) as Hn1. simpl in Hn1.
  rewrite length_take in Hn1.
  assert (Hone : active_items_count rb1 = 1) by lia.
  assert (Hdr : dropped_reads rb1 = 0).
  { destruct (Nat.eq_dec (length items - 1)%nat 0%nat) as [Hz | Hz].
    - rewrite (He1 Hz). exact Hdw.
    - exact (Hd1 Hz). }
  assert (Hsup : suppresses false rb1 = true).
  { unfold suppresses. rewrite Hone, Hdr. reflexivity. }
  destruct (fifo_read false rb1 _ F1) as (rb2 & Hr2 & F2 & Hd2 & Hs2 & Hc2).
  { rewrite Hc1, Hcw. exact Hint. }
  { lia. }
  rewrite Hsup in Hr2, F2, Hd2. simpl in Hr2, F2.
  pose proof (fifo_count _ _ _ F2) as Hn2. simpl in Hn2.
  rewrite length_take in Hn2.
  pose proof (fifo_reset_write_idx _ _ _ F2) as F2'.
  destruct (fifo_read true (reset_write_idx rb2) _ F2')
    as (rb3 & Hr3 & F3 & Hd3 & Hs3 & Hc3).
  { change (capacity (reset_write_idx rb2)) with (capacity rb2).
    rewrite Hc2, Hc1, Hcw. exact Hint. }
  { simpl. lia. }
  simpl in Hr3, F3. rewrite length_take in Hr3, F3.
  replace (S (Nat.min (length items - 1) (length items)))
    with (length items) in Hr3, F3 by lia.
  rewrite firstn_all in Hr3, F3.
  pose proof (fifo_count _ _ _ F3) as Hn3. simpl in Hn3.
  exists rb1, rb2, rb3, (mkJournal items (take (length items - 1)%nat items)).
  split_and!.
  - rewrite session_app, Hw. exact Hr.
  - reflexivity.
  - reflexivity.
  - exact Hr2.
  - assert (Hrep : replicate (length items) ReqRead =
                   replicate (length items - 1) ReqRead ++ [ReqRead]).
    { replace (length items) with ((length items - 1) + 1)%nat at 1 by lia.
      rewrite replicate_add. reflexivity. }
    rewrite Hrep, app_assoc, session_app.
    rewrite session_app, Hw, Hr. unfold session. simpl. rewrite Hr2.
    reflexivity.
  - unfold size. lia.
  - rewrite Hd2, Hdr. reflexivity.
  - unfold session. simpl. rewrite Hr3. reflexivity.
  - unfold empty. apply Z.eqb_eq. lia.
Qed.

(** Past [2^31] buffered items the first completed read wipes the
    occupancy: [pop] narrows [active_items_count - 1] to an [int], finds it
    negative and clamps it to 0. *)
Lemma large_session_first_read (items : list (list byte)) :
  Z.of_nat (length items) = 2 ^ 31 + 1 ->
  Forall (fun item => Z.of_nat (length item) = 1) items ->
  exists rb j rb' j',
    session (map ReqWrite items) (fresh 1 (2 ^ 31 + 1)) no_journal =
      Some (rb, j) /\
    source j = items /\
    target j = [] /\
    size rb = 2 ^ 31 + 1 /\
    read consume rb j = Some (rb', j') /\
    target j' = take 1 items /\
    size rb' = 0 /\
    read consume rb' j' = None.
Proof.
  intros HN Hit.
  pose proof SIZE_MAX_ge as HM.
  pose proof (fifo_fresh 1 (2 ^ 31 + 1) ltac:(lia) ltac:(lia) ltac:(lia)) as F0.
  destruct (fifo_writes items (fresh 1 (2 ^ 31 + 1)) no_journal F0 Hit)
    as (rb & Hw & F & Hd & Hs & Hc).
  { simpl. lia. }
  simpl in Hw, F, Hd, Hs, Hc.
  pose proof (fifo_count _ _ _ F) as Hn. simpl in Hn.
  assert (He : empty rb = false) by (unfold empty; apply Z.eqb_neq; lia).
  destruct (fifo_suppresses false rb _ F He) as [Hcond Hidx].
  simpl in Hidx. rewrite Z.mod_0_l in Hidx by lia.
  assert (Hsup : suppresses false rb = false).
  { unfold suppresses.
    destruct (Z.eqb_spec (active_items_count rb) 1); [lia | reflexivity]. }
  rewrite Hsup in Hcond.
  pose proof (fifo_slots _ _ _ F 0 ltac:(simpl; lia)) as Hslot.
  simpl in Hslot. rewrite Z.mod_0_l in Hslot by lia.
  change (0 * item_size rb) with 0 in Hslot.
  assert (Hpop : active_items_count (pop rb) = 0).
  { unfold pop, set_active_items_count. cbn [active_items_count].
    replace (active_items_count rb - 1) with (2 ^ 31) by lia.
    rewrite (to_size_t_small (2 ^ 31)) by lia.
    change (to_int (2 ^ 31)) with (- 2 ^ 31).
    rewrite Z.max_r by lia. apply to_size_t_small. lia. }
  eexists rb, _, _, _. split_and!.
  - exact Hw.
  - reflexivity.
  - reflexivity.
  - unfold size. lia.
  - unfold read. rewrite He. simpl.
    rewrite (perform_read_completes consume rb _ Hcond). cbv zeta.
    rewrite Hidx. change (0 * item_size rb) with 0.
    rewrite (to_size_t_small 0) by lia. reflexivity.
  - simpl. rewrite (take_S_r items 0 _ Hslot). reflexivity.
  - exact Hpop.
  - unfold read, empty. simpl.
    unfold pop in Hpop. simpl in Hpop. rewrite Hpop. reflexivity.
Qed.

(** ** When the buffer reads as empty or full *)

(** C8, as the code has it.  [empty()] is true exactly when the occupancy
    is 0 and [full()] exactly when it equals the capacity.  In a session
    on a fresh buffer that never overwrites (blocking and non-blocking
    writes, any reads, the write cursor reset only once writing is over)
    and whose capacity is at most [2^31], the items come out in the order
    they went in, and [empty()] is true only when every item written has
    been read, which includes the fresh buffer.  In particular, with
    [item_size = 4] and [capacity = 3], three blocking writes make
    [full()] true, and a blocking read then hands "AAAA" to its callback
    and leaves [size()] at 2. *)
Theorem empty_only_after_all_read isz cap rs rb j :
  1 <= isz ->
  1 <= cap <= 2 ^ 31 ->
  isz * cap <= SIZE_MAX ->
  fifo_session false isz rs = true ->
  session rs (fresh isz cap) no_journal = Some (rb, j) ->
  target j = take (length (target j)) (source j) /\
  size rb = Z.of_nat (length (source j)) - Z.of_nat (length (target j)) /\
  (empty rb = true <-> target j = source j) /\
  (forall rb0, empty rb0 = true <-> size rb0 = 0) /\
  (forall rb0, full rb0 = true <-> size rb0 = capacity rb0) /\
  (exists rb3 j3 rb4 j4,
     session [ReqWrite AAAA; ReqWrite BBBB; ReqWrite CCCC] (fresh 4 3)
       no_journal = Some (rb3, j3) /\
     full rb3 = true /\
     read consume rb3 j3 = Some (rb4, j4) /\
     target j4 = [AAAA] /\
     size rb4 = 2).
Proof.
  intros Hs Hc Hm Hrs Hrun.
  pose proof (fifo_fresh isz cap Hs ltac:(lia) Hm) as F0.
  destruct (fifo_run rs false (fresh isz cap) no_journal rb j F0
              ltac:(simpl; lia) Hrs Hrun) as (d & F & Hcap).
  pose proof (fifo_prefix _ _ _ F) as Hp.
  pose proof (fifo_count _ _ _ F) as Hn.
  pose proof (fifo_lengths _ _ _ F) as Hlen.
  split_and!.
  - exact Hp.
  - exact Hn.
  - unfold empty. rewrite Z.eqb_eq. split.
    + intros Hz. rewrite Hp. apply take_ge. lia.
    + intros Heq. rewrite Heq in Hn. lia.
  - intros rb0. unfold empty, size. apply Z.eqb_eq.
  - intros rb0. unfold full, size. apply Z.eqb_eq.
  - pose proof SIZE_MAX_ge as HM.
    pose proof (fifo_fresh 4 3 ltac:(lia) ltac:(lia) ltac:(lia)) as G0.
    destruct (fifo_writes [AAAA; BBBB; CCCC] (fresh 4 3) no_journal G0)
      as (rb3 & Hw & F3 & Hd3 & Hs3 & Hc3).
    { repeat constructor. }
    { simpl. lia. }
    simpl in Hw, F3, Hc3.
    pose proof (fifo_count _ _ _ F3) as Hn3. simpl in Hn3.
    destruct (fifo_read false rb3 _ F3) as (rb4 & Hr & F4 & _).
    { rewrite Hc3. lia. }
    { lia. }
    assert (Hsup : suppresses false rb3 = false).
    { unfold suppresses. rewrite Hn3. reflexivity. }
    rewrite Hsup in Hr, F4. simpl in Hr, F4.
    pose proof (fifo_count _ _ _ F4) as Hn4. simpl in Hn4.
    eexists rb3, _, rb4, _. split_and!.
    + exact Hw.
    + unfold full. rewrite Hc3, Hn3. reflexivity.
    + exact Hr.
    + reflexivity.
    + unfold size. lia.
Qed.

(** ** What holds of every session, whatever the callbacks *)

Lemma length_store_slot off s rb :
  length (buffer (store_slot off s rb)) = length (buffer rb).
Proof. unfold store_slot. simpl. apply length_inserts. Qed.

Lemma in_storage_next_slot c rb : in_storage rb -> next_slot_in_bounds c rb.
Proof.
  intros (Hs & Hc & Hm & Hl & Hw & Hr). unfold next_slot_in_bounds. cbv zeta.
  pose proof (incremented_range rb (load c rb) Hc) as Hi.
  destruct (slot_offset_fits _ _ _ Hi Hs Hm) as (H0 & H1 & H2).
  rewrite (to_size_t_small _ (conj H0 H2)).
  split_and!; try lia.
  unfold slot_at. rewrite length_take, length_drop. lia.
Qed.

Lemma perform_write_in_storage {E : Type} (f : callback E) rb env :
  in_storage rb ->
  in_storage (fst (perform_write f rb env)) /\
  length (buffer (fst (perform_write f rb env))) = length (buffer rb).
Proof.
  intros (Hs & Hc & Hm & Hl & Hw & Hr).
  rewrite perform_write_unfold. cbv zeta.
  pose proof (incremented_range rb (write_idx rb) Hc) as Hi.
  unfold in_storage, capacity in *. simpl.
  rewrite length_inserts. split_and!; auto.
Qed.

Lemma perform_read_in_storage {E : Type} (f : callback E) rb env :
  in_storage rb ->
  in_storage (fst (perform_read f rb env)) /\
  length (buffer (fst (perform_read f rb env))) = length (buffer rb).
Proof.
  intros (Hs & Hc & Hm & Hl & Hw & Hr).
  destruct (read_collides rb
            && (should_always_drop_reads rb
                || (dropped_reads rb <? MAX_ALLOWED_READ_DROPS))) eqn:Hcond.
  - unfold perform_read. rewrite Hcond. unfold in_storage. simpl.
    split_and!; auto.
  - rewrite (perform_read_completes f rb env Hcond). cbv zeta.
    pose proof (incremented_range rb (read_idx rb) Hc) as Hi.
    unfold in_storage, capacity in *. simpl.
    rewrite length_inserts. split_and!; auto.
Qed.

Lemma in_storage_flag b rb :
  in_storage rb -> in_storage (set_should_always_drop_reads b rb).
Proof. intros H. exact H. Qed.

Lemma run_call_in_storage {E : Type} (c : call E) rb env rb' env' :
  in_storage rb ->
  run_call c rb env = Some (rb', env') ->
  in_storage rb' /\ length (buffer rb') = length (buffer rb).
Proof.
  intros Hok Hrun.
  destruct c as [f | f | f | f | f t | f | |]; simpl in Hrun.
  - unfold write in Hrun.
    destruct (full _); [discriminate |]. injection Hrun as Hrun.
    pose proof (perform_write_in_storage f _ env (in_storage_flag false rb Hok))
      as H.
    rewrite Hrun in H. exact H.
  - injection Hrun as Hrun. unfold write_overwrite in Hrun.
    pose proof (perform_write_in_storage f _ env (in_storage_flag true rb Hok))
      as H.
    rewrite Hrun in H. exact H.
  - injection Hrun as Hrun. unfold write_nonblock in Hrun.
    destruct (negb _).
    + pose proof (perform_write_in_storage f _ env
                    (in_storage_flag false rb Hok)) as H.
      rewrite Hrun in H. exact H.
    + injection Hrun as <- _. split; [exact Hok | reflexivity].
  - unfold read in Hrun.
    destruct (negb _); [| discriminate]. injection Hrun as Hrun.
    pose proof (perform_read_in_storage f rb env Hok) as H.
    rewrite Hrun in H. exact H.
  - injection Hrun as Hrun. unfold read_timeout in Hrun.
    destruct (negb _).
    + pose proof (perform_read_in_storage f rb env Hok) as H.
      rewrite Hrun in H. exact H.
    + injection Hrun as <- _. auto.
  - injection Hrun as Hrun. unfold read_nonblock in Hrun.
    destruct (negb _).
    + pose proof (perform_read_in_storage f rb env Hok) as H.
      rewrite Hrun in H. exact H.
    + injection Hrun as <- _. auto.
  - injection Hrun as <- _. destruct Hok as (Hs & Hc & Hm & Hl & Hw & Hr).
    unfold in_storage. simpl. split_and!; auto.
  - injection Hrun as <- _. destruct Hok as (Hs & Hc & Hm & Hl & Hw & Hr).
    unfold in_storage. simpl. split_and!; auto.
Qed.

Lemma in_storage_fresh isz cap :
  1 <= isz -> 1 <= cap -> isz * cap <= SIZE_MAX -> in_storage (fresh isz cap).
Proof.
  intros Hs Hc Hm. unfold in_storage, fresh, capacity. simpl.
  rewrite length_replicate, to_size_t_small by nia.
  split_and!; auto; nia.
Qed.

Lemma run_call_dims {E : Type} (c : call E) rb env rb' env' :
  run_call c rb env = Some (rb', env') ->
  item_size rb' = item_size rb /\ max_items_count rb' = max_items_count rb.
Proof.
  intros Hc.
  destruct c as [f | f | f | f | f t | f | |]; simpl in Hc.
  - unfold write in Hc. destruct (full _); [discriminate |].
    injection Hc as Hc.
    pose proof (perform_write_dims f
                  (set_should_always_drop_reads false rb) env) as H.
    rewrite Hc in H. exact H.
  - injection Hc as Hc.
    pose proof (perform_write_dims f
                  (set_should_always_drop_reads true rb) env) as H.
    unfold write_overwrite in Hc. rewrite Hc in H. exact H.
  - injection Hc as Hc. unfold write_nonblock in Hc.
    destruct (negb _).
    + pose proof (perform_write_dims f
                    (set_should_always_drop_reads false rb) env) as H.
      rewrite Hc in H. exact H.
    + injection Hc as <- _. auto.
  - unfold read in Hc. destruct (negb _); [| discriminate].
    injection Hc as Hc.
    pose proof (perform_read_dims f rb env) as H.
    rewrite Hc in H. exact H.
  - injection Hc as Hc. unfold read_timeout in Hc. destruct (negb _).
    + pose proof (perform_read_dims f rb env) as H.
      rewrite Hc in H. exact H.
    + injection Hc as <- _. auto.
  - injection Hc as Hc. unfold read_nonblock in Hc. destruct (negb _).
    + pose proof (perform_read_dims f rb env) as H.
      rewrite Hc in H. exact H.
    + injection Hc as <- _. auto.
  - injection Hc as <- _. auto.
  - injection Hc as <- _. auto.
Qed.

Lemma run_in_storage {E : Type} (cs : list (call E)) :
  forall rb env rb' env',
    in_storage rb ->
    run cs rb env = Some (rb', env') ->
    in_storage rb' /\
    length (buffer rb') = length (buffer rb) /\
    item_size rb' = item_size rb /\
    max_items_count rb' = max_items_count rb.
Proof.
  induction cs as [| c cs IH]; intros rb env rb' env' Hok Hrun; simpl in Hrun.
  - injection Hrun as <- _. auto.
  - destruct (run_call c rb env) as [[rb1 env1] |] eqn:Hc; [| discriminate].
    destruct (run_call_in_storage c rb env rb1 env1 Hok Hc) as [Hok1 Hl1].
    destruct (run_call_dims c rb env rb1 env1 Hc) as [Hd1 Hd2].
    destruct (IH rb1 env1 rb' env' Hok1 Hrun) as (Hok' & Hl' & Hs' & Hc').
    split_and!; [exact Hok' | | |]; congruence.
Qed.

(** X3. Whatever the calls and whatever their callbacks do, a buffer of sound
    dimensions keeps its storage at [item_size * capacity] bytes and its
    cursors at the sentinel or on a slot; hence the slot the next write
    and the next read hand to their callback lies inside the storage and
    holds [item_size] bytes. *)
Theorem callbacks_stay_in_bounds {E : Type} (cs : list (call E))
    isz cap env rb' env' :
  1 <= isz -> 1 <= cap -> isz * cap <= SIZE_MAX ->
  run cs (fresh isz cap) env = Some (rb', env') ->
  item_size rb' = isz /\
  capacity rb' = cap /\
  Z.of_nat (length (buffer rb')) = isz * cap /\
  (write_idx rb' = SIZE_MAX \/ 0 <= write_idx rb' < cap) /\
  (read_idx rb' = SIZE_MAX \/ 0 <= read_idx rb' < cap) /\
  next_slot_in_bounds WriteIdx rb' /\
  next_slot_in_bounds ReadIdx rb'.
Proof.
  intros Hs Hc Hm Hrun.
  destruct (run_in_storage cs (fresh isz cap) env rb' env'
              (in_storage_fresh isz cap Hs Hc Hm) Hrun)
    as (Hok & Hl & Hs' & Hc').
  pose proof Hok as (_ & _ & _ & Hlen & Hw & Hr).
  change (item_size (fresh isz cap)) with isz in Hs'.
  change (max_items_count (fresh isz cap)) with cap in Hc'.
  unfold capacity in *. rewrite Hs', Hc' in Hlen. rewrite Hc' in Hw, Hr.
  split_and!; auto using in_storage_next_slot.
Qed.

(** ** Producer and consumer keep to their own members *)

Lemma perform_write_frame {E : Type} (f : callback E) rb env :
  read_idx (fst (perform_write f rb env)) = read_idx rb /\
  dropped_reads (fst (perform_write f rb env)) = dropped_reads rb /\
  should_always_drop_reads (fst (perform_write f rb env)) =
    should_always_drop_reads rb.
Proof. rewrite perform_write_unfold. simpl. auto. Qed.

Lemma perform_read_frame {E : Type} (f : callback E) rb env :
  write_idx (fst (perform_read f rb env)) = write_idx rb /\
  should_always_drop_reads (fst (perform_read f rb env)) =
    should_always_drop_reads rb.
Proof.
  destruct (read_collides rb
            && (should_always_drop_reads rb
                || (dropped_reads rb <? MAX_ALLOWED_READ_DROPS))) eqn:Hc.
  - unfold perform_read. rewrite Hc. simpl. auto.
  - rewrite (perform_read_completes f rb env Hc). simpl. auto.
Qed.

Lemma write_call_frame {E : Type} (c : call E) rb env rb' env' :
  is_write_call c = true ->
  run_call c rb env = Some (rb', env') ->
  read_idx rb' = read_idx rb /\ dropped_reads rb' = dropped_reads rb.
Proof.
  intros Hw Hrun.
  destruct c as [f | f | f | f | f t | f | |]; try discriminate;
    simpl in Hrun.
  - unfold write in Hrun. destruct (full _); [discriminate |].
    injection Hrun as Hrun.
    pose proof (perform_write_frame f
                  (set_should_always_drop_reads false rb) env) as H.
    rewrite Hrun in H. destruct H as (H1 & H2 & _). auto.
  - injection Hrun as Hrun. unfold write_overwrite in Hrun.
    pose proof (perform_write_frame f
                  (set_should_always_drop_reads true rb) env) as H.
    rewrite Hrun in H. destruct H as (H1 & H2 & _). auto.
  - injection Hrun as Hrun. unfold write_nonblock in Hrun.
    destruct (negb _).
    + pose proof (perform_write_frame f
                    (set_should_always_drop_reads false rb) env) as H.
      rewrite Hrun in H. destruct H as (H1 & H2 & _). auto.
    + injection Hrun as <- _. auto.
Qed.

Lemma read_call_frame {E : Type} (c : call E) rb env rb' env' :
  is_read_call c = true ->
  run_call c rb env = Some (rb', env') ->
  write_idx rb' = write_idx rb /\
  should_always_drop_reads rb' = should_always_drop_reads rb.
Proof.
  intros Hr Hrun.
  destruct c as [f | f | f | f | f t | f | |]; try discriminate;
    simpl in Hrun.
  - unfold read in Hrun. destruct (negb _); [| discriminate].
    injection Hrun as Hrun.
    pose proof (perform_read_frame f rb env) as H.
    rewrite Hrun in H. exact H.
  - injection Hrun as Hrun. unfold read_timeout in Hrun. destruct (negb _).
    + pose proof (perform_read_frame f rb env) as H.
      rewrite Hrun in H. exact H.
    + injection Hrun as <- _. auto.
  - injection Hrun as Hrun. unfold read_nonblock in Hrun. destruct (negb _).
    + pose proof (perform_read_frame f rb env) as H.
      rewrite Hrun in H. exact H.
    + injection Hrun as <- _. auto.
Qed.

(** X4. However many writes run, of whatever variant and with whatever
    callback, the read cursor and the drop counter are as they were; and
    however many reads run, the write cursor and the drop-policy flag are
    as they were. *)
Theorem producer_and_consumer_keep_apart {E : Type} (cs : list (call E)) :
  forall rb env rb' env',
    run cs rb env = Some (rb', env') ->
    (forallb is_write_call cs = true ->
     read_idx rb' = read_idx rb /\ dropped_reads rb' = dropped_reads rb) /\
    (forallb is_read_call cs = true ->
     write_idx rb' = write_idx rb /\
     should_always_drop_reads rb' = should_always_drop_reads rb).
Proof.
  induction cs as [| c cs IH]; intros rb env rb' env' Hrun; simpl in Hrun.
  - injection Hrun as <- _. auto.
  - destruct (run_call c rb env) as [[rb1 env1] |] eqn:Hc; [| discriminate].
    destruct (IH rb1 env1 rb' env' Hrun) as [IHw IHr].
    split; intros Hall; simpl in Hall;
      apply andb_true_iff in Hall as [Hhd Htl].
    + destruct (write_call_frame c rb env rb1 env1 Hhd Hc) as [H1 H2].
      destruct (IHw Htl) as [H3 H4]. split; congruence.
    + destruct (read_call_frame c rb env rb1 env1 Hhd Hc) as [H1 H2].
      destruct (IHr Htl) as [H3 H4]. split; congruence.
Qed.

(** ** What a call does to the storage *)

Lemma slice_inserts_part (buf s : list byte) (off d n : nat) :
  (off + length s <= length buf)%nat ->
  (d + n <= length s)%nat ->
  take n (drop (off + d) (list_inserts off s buf)) = take n (drop d s).
Proof.
  intros Hfit Hpart. apply list_eq. intros i.
  destruct (decide (i < n)%nat) as [Hi | Hi].
  - rewrite !lookup_take_lt, !lookup_drop by lia.
    rewrite list_lookup_inserts by lia.
    f_equal. lia.
  - rewrite !lookup_take_ge by lia. reflexivity.
Qed.

(** X5. What one call does to the storage, with the callbacks of the
    tests.  [perform_write] with a producer that copies an item of
    [item_size] bytes replaces the slot its cursor advances to by the
    item and leaves every other slot as it was, and [perform_read] with
    the consumer that copies the slot out changes no byte at all.
    Nothing in the buffer holds the producer to [item_size] bytes: one
    that copies two items' worth through the same pointer fills the slot
    that follows as well. *)
Theorem calls_touch_one_slot rb j (item : list byte) :
  in_storage rb ->
  let idx := incremented_with_capacity rb (write_idx rb) in
  let rb' := fst (perform_write (produce item) rb j) in
  0 <= idx < capacity rb /\
  length (buffer rb') = length (buffer rb) /\
  (Z.of_nat (length item) = item_size rb ->
   slot_at (idx * item_size rb) rb' = item /\
   forall k,
     0 <= k < capacity rb -> k <> idx ->
     slot_at (k * item_size rb) rb' = slot_at (k * item_size rb) rb) /\
  (Z.of_nat (length item) = 2 * item_size rb ->
   idx + 1 < capacity rb ->
   slot_at (idx * item_size rb) rb' = take (Z.to_nat (item_size rb)) item /\
   slot_at ((idx + 1) * item_size rb) rb' =
     drop (Z.to_nat (item_size rb)) item) /\
  buffer (fst (perform_read consume rb j)) = buffer rb.
Proof.
  intros (Hs & Hc & Hm & Hl & Hw & Hr). cbv zeta.
  pose proof (incremented_range rb (write_idx rb) Hc) as Hi.
  set (idx := incremented_with_capacity rb (write_idx rb)) in *.
  destruct (slot_offset_fits idx (capacity rb) (item_size rb) Hi Hs Hm)
    as (Ho0 & Ho1 & Ho2).
  assert (Hbuf : buffer (fst (perform_write (produce item) rb j)) =
                 list_inserts (Z.to_nat (idx * item_size rb)) item (buffer rb)).
  { rewrite perform_write_unfold. cbv zeta. fold idx.
    rewrite (to_size_t_small (idx * item_size rb)) by lia. reflexivity. }
  destruct (perform_write_dims (produce item) rb j) as [Hdim _].
  split; [exact Hi |]. split; [| split; [| split]].
  - rewrite Hbuf. apply length_inserts.
  - intros Hitem. unfold slot_at. rewrite Hbuf, Hdim. split.
    + apply slice_inserts_same; lia.
    + intros k Hk Hne. apply slice_inserts_other; [lia |].
      apply (slot_offsets_disjoint _ _ (capacity rb)); lia.
  - intros Hitem Hnext. unfold slot_at. rewrite Hbuf, Hdim. split.
    + rewrite <- (Nat.add_0_r (Z.to_nat (idx * item_size rb))) at 1.
      rewrite slice_inserts_part by nia. reflexivity.
    + replace (Z.to_nat ((idx + 1) * item_size rb))
        with (Z.to_nat (idx * item_size rb) + Z.to_nat (item_size rb))%nat
        by nia.
      rewrite slice_inserts_part by nia.
      apply take_ge. rewrite length_drop. lia.
  - destruct (read_collides rb
              && (should_always_drop_reads rb
                  || (dropped_reads rb <? MAX_ALLOWED_READ_DROPS))) eqn:Hcond.
    + unfold perform_read. rewrite Hcond. reflexivity.
    + rewrite (perform_read_completes consume rb j Hcond). cbv zeta.
      unfold consume, pop, store_slot, slot_at. simpl.
      apply inserts_slice_id.
Qed.

(** ** [push] and [pop] undo each other *)

(** X6. Below [2^31] buffered items a completed read takes back exactly what
    a completed write added to the occupancy, and the other way round. *)
Theorem push_pop_round_trip rb :
  capacity rb <= 2 ^ 31 ->
  (0 <= active_items_count rb < capacity rb ->
   active_items_count (pop (push rb)) = active_items_count rb) /\
  (1 <= active_items_count rb <= capacity rb ->
   active_items_count (push (pop rb)) = active_items_count rb).
Proof.
  intros Hc. pose proof SIZE_MAX_ge as HM. split; intros Ha.
  - rewrite pop_exact.
    + rewrite push_exact by lia. lia.
    + rewrite push_exact by lia. lia.
  - rewrite push_exact.
    + rewrite pop_exact by lia. lia.
    + rewrite pop_exact by lia. change (capacity (pop rb)) with (capacity rb).
      lia.
    + change (capacity (pop rb)) with (capacity rb). lia.
Qed.

(** ** The scenarios of the tests, for any dimensions *)

Lemma session_cons r rs rb j :
  session (r :: rs) rb j =
  match run_call (to_call r) rb j with
  | Some (rb1, j1) => session rs rb1 j1
  | None => None
  end.
Proof. reflexivity. Qed.

(** X7. A blocking write returns as long as there is room and never once the
    buffer is full: the first [capacity] writes of a producer that nobody
    reads from fill the buffer, and the next one waits for ever. *)
Theorem writes_beyond_capacity_block isz cap (items : list (list byte)) :
  1 <= isz -> 1 <= cap -> isz * cap <= SIZE_MAX ->
  Forall (fun item => Z.of_nat (length item) = isz) items ->
  cap < Z.of_nat (length items) ->
  session (map ReqWrite items) (fresh isz cap) no_journal = None /\
  exists rb,
    session (map ReqWrite (take (Z.to_nat cap) items)) (fresh isz cap)
      no_journal = Some (rb, mkJournal (take (Z.to_nat cap) items) []) /\
    full rb = true /\
    size rb = cap.
Proof.
  intros Hs Hc Hm Hit Hlen.
  pose proof (fifo_fresh isz cap Hs Hc Hm) as F0.
  destruct (fifo_writes (take (Z.to_nat cap) items) (fresh isz cap) no_journal
              F0) as (rb & Hw & F & _ & _ & Hcap).
  { apply Forall_take. exact Hit. }
  { rewrite length_take. simpl. lia. }
  simpl in Hw, F, Hcap.
  pose proof (fifo_count _ _ _ F) as Hn. simpl in Hn.
  rewrite length_take in Hn.
  assert (Hfull : full rb = true).
  { unfold full. apply Z.eqb_eq. rewrite Hcap. lia. }
  split.
  - rewrite <- (take_drop (Z.to_nat cap) items) at 1.
    rewrite map_app, session_app, Hw.
    destruct (drop (Z.to_nat cap) items) as [| item rest] eqn:Hdrop.
    + apply (f_equal length) in Hdrop. rewrite length_drop in Hdrop.
      simpl in Hdrop. lia.
    + simpl map. rewrite session_cons. simpl run_call. unfold write.
      change (full (set_should_always_drop_reads false rb)) with (full rb).
      rewrite Hfull. reflexivity.
  - exists rb. split_and!; [exact Hw | exact Hfull |]. unfold size. lia.
Qed.

Lemma perform_read_drops {E : Type} (f : callback E) rb env :
  0 <= dropped_reads rb <= MAX_ALLOWED_READ_DROPS ->
  should_always_drop_reads rb = false ->
  0 <= dropped_reads (fst (perform_read f rb env)) <= MAX_ALLOWED_READ_DROPS /\
  should_always_drop_reads (fst (perform_read f rb env)) = false.
Proof.
  intros Hd Hf.
  destruct (perform_read_frame f rb env) as [_ Hflag].
  split; [| congruence].
  destruct (read_collides rb
            && (should_always_drop_reads rb
                || (dropped_reads rb <? MAX_ALLOWED_READ_DROPS))) eqn:Hc.
  - unfold perform_read. rewrite Hc. simpl.
    rewrite Hf in Hc. simpl in Hc.
    apply andb_true_iff in Hc as [_ Hlt]. apply Z.ltb_lt in Hlt.
    rewrite to_uint32_succ
      by (unfold UINT32_MAX, MAX_ALLOWED_READ_DROPS, UINT16_MAX in *; lia).
    lia.
  - rewrite (perform_read_completes f rb env Hc). simpl.
    unfold MAX_ALLOWED_READ_DROPS, UINT16_MAX. lia.
Qed.

Lemma run_call_drops {E : Type} (c : call E) rb env rb' env' :
  is_overwrite_call c = false ->
  drops_bounded rb ->
  run_call c rb env = Some (rb', env') ->
  drops_bounded rb' /\
  (is_write_call c = true \/ should_always_drop_reads rb = false ->
   should_always_drop_reads rb' = false).
Proof.
  intros Hno [Hd Hf] Hrun.
  destruct c as [f | f | f | f | f t | f | |]; try discriminate;
    simpl in Hrun.
  - (* write *)
    unfold write in Hrun. destruct (full _); [discriminate |].
    injection Hrun as Hrun.
    pose proof (perform_write_frame f
                  (set_should_always_drop_reads false rb) env) as H.
    rewrite Hrun in H. simpl in H. destruct H as (_ & H2 & H3).
    unfold drops_bounded. rewrite H2, H3. auto.
  - (* write_nonblock *)
    injection Hrun as Hrun. unfold write_nonblock in Hrun.
    destruct (negb _).
    + pose proof (perform_write_frame f
                    (set_should_always_drop_reads false rb) env) as H.
      rewrite Hrun in H. simpl in H. destruct H as (_ & H2 & H3).
      unfold drops_bounded. rewrite H2, H3. auto.
    + injection Hrun as <- _. unfold drops_bounded. simpl. auto.
  - (* read *)
    unfold read in Hrun. destruct (empty rb) eqn:He; [discriminate |].
    simpl in Hrun. injection Hrun as Hrun.
    assert (Hflag : should_always_drop_reads rb = false).
    { unfold empty in He. apply Z.eqb_neq in He. destruct Hf; [assumption | lia]. }
    pose proof (perform_read_drops f rb env Hd Hflag) as H.
    rewrite Hrun in H. simpl in H. destruct H as [H1 H2].
    unfold drops_bounded. auto.
  - (* read_timeout *)
    injection Hrun as Hrun. unfold read_timeout in Hrun.
    destruct (empty rb) eqn:He; simpl in Hrun.
    + injection Hrun as <- _. split; [split; assumption |].
      intros [H | H]; [discriminate | exact H].
    + assert (Hflag : should_always_drop_reads rb = false).
      { unfold empty in He. apply Z.eqb_neq in He.
        destruct Hf; [assumption | lia]. }
      pose proof (perform_read_drops f rb env Hd Hflag) as H.
      rewrite Hrun in H. simpl in H. destruct H as [H1 H2].
      unfold drops_bounded. auto.
  - (* read_nonblock *)
    injection Hrun as Hrun. unfold read_nonblock in Hrun.
    destruct (empty rb) eqn:He; simpl in Hrun.
    + injection Hrun as <- _. split; [split; assumption |].
      intros [H | H]; [discriminate | exact H].
    + assert (Hflag : should_always_drop_reads rb = false).
      { unfold empty in He. apply Z.eqb_neq in He.
        destruct Hf; [assumption | lia]. }
      pose proof (perform_read_drops f rb env Hd Hflag) as H.
      rewrite Hrun in H. simpl in H. destruct H as [H1 H2].
      unfold drops_bounded. auto.
  - (* reset_write_idx *)
    injection Hrun as <- _. split; [split; assumption |].
    intros [H | H]; [discriminate | exact H].
  - (* reset_read_idx *)
    injection Hrun as <- _. split; [split; assumption |].
    intros [H | H]; [discriminate | exact H].
Qed.

Lemma run_drops {E : Type} (cs : list (call E)) :
  forall rb env rb' env',
    forallb (fun c => negb (is_overwrite_call c)) cs = true ->
    drops_bounded rb ->
    run cs rb env = Some (rb', env') ->
    drops_bounded rb' /\
    (existsb is_write_call cs = true \/ should_always_drop_reads rb = false ->
     should_always_drop_reads rb' = false).
Proof.
  induction cs as [| c cs IH]; intros rb env rb' env' Hno Hok Hrun;
    simpl in Hrun.
  - injection Hrun as <- _. split; [exact Hok |].
    intros [H | H]; [discriminate | exact H].
  - simpl in Hno. apply andb_true_iff in Hno as [Hc Hno].
    apply negb_true_iff in Hc.
    destruct (run_call c rb env) as [[rb1 env1] |] eqn:Hcall; [| discriminate].
    destruct (run_call_drops c rb env rb1 env1 Hc Hok Hcall) as [Hok1 Hf1].
    destruct (IH rb1 env1 rb' env' Hno Hok1 Hrun) as [Hok' Hf'].
    split; [exact Hok' |].
    intros H. apply Hf'. simpl in H.
    destruct H as [H | H].
    + apply orb_true_iff in H as [H | H]; [right; apply Hf1; left; exact H |].
      left. exact H.
    + right. apply Hf1. right. exact H.
Qed.

(** X8. On a buffer of sound dimensions, as long as no write overwrites,
    whatever else is called, in whatever order and with whatever
    callbacks, the resets of the cursors included, the drop counter stays
    at or below [MAX_ALLOWED_READ_DROPS], far from where a [uint32_t]
    wraps: a read is forced as soon as the threshold is reached.  And
    [should_always_drop_reads], set by the constructor, is clear once
    [write] or [write_nonblock] has been called, hence whenever there is
    something to read. *)
Theorem drop_counter_bounded {E : Type} (cs : list (call E))
    isz cap env rb' env' :
  1 <= isz -> 1 <= cap -> isz * cap <= SIZE_MAX ->
  forallb (fun c => negb (is_overwrite_call c)) cs = true ->
  run cs (fresh isz cap) env = Some (rb', env') ->
  0 <= dropped_reads rb' <= MAX_ALLOWED_READ_DROPS /\
  dropped_reads rb' < UINT32_MAX /\
  (existsb is_write_call cs = true -> should_always_drop_reads rb' = false) /\
  (empty rb' = false -> should_always_drop_reads rb' = false).
Proof.
  intros _ _ _ Hno Hrun.
  assert (Hok : drops_bounded (fresh isz cap)).
  { unfold drops_bounded, fresh. simpl.
    unfold MAX_ALLOWED_READ_DROPS, UINT16_MAX. lia. }
  destruct (run_drops cs (fresh isz cap) env rb' env' Hno Hok Hrun)
    as [[Hd Hf] Hw].
  split_and!.
  - lia.
  - lia.
  - unfold MAX_ALLOWED_READ_DROPS, UINT16_MAX, UINT32_MAX in *. lia.
  - intros H. apply Hw. left. exact H.
  - intros He. unfold empty in He. apply Z.eqb_neq in He.
    destruct Hf; [assumption | lia].
Qed.

(** X9. The scenario of [ReadWriteToBufferSimple]: [capacity] blocking
    writes fill the buffer; one read takes the first item out; after
    [reset_write_idx] the remaining reads deliver the rest, in order, and
    leave the buffer empty. *)
Theorem fill_then_drain isz cap (items : list (list byte)) :
  1 <= isz ->
  2 <= cap <= 2 ^ 31 ->
  isz * cap <= SIZE_MAX ->
  Forall (fun item => Z.of_nat (length item) = isz) items ->
  Z.of_nat (length items) = cap ->
  exists rb1 rb2 rb3,
    session (map ReqWrite items) (fresh isz cap) no_journal =
      Some (rb1, mkJournal items []) /\
    empty rb1 = false /\ full rb1 = true /\
    read consume rb1 (mkJournal items []) =
      Some (rb2, mkJournal items (take 1 items)) /\
    empty rb2 = false /\ full rb2 = false /\ size rb2 = cap - 1 /\
    session (ReqResetWriteIdx :: replicate (length items - 1) ReqRead)
      rb2 (mkJournal items (take 1 items)) =
      Some (rb3, mkJournal items items) /\
    empty rb3 = true /\ full rb3 = false.
Proof.
  intros Hs Hc Hm Hit Hlen.
  pose proof (fifo_fresh isz cap Hs ltac:(lia) Hm) as F0.
  destruct (fifo_writes items (fresh isz cap) no_journal F0 Hit)
    as (rb1 & Hw & F1 & _ & _ & Hc1).
  { simpl. lia. }
  simpl in Hw, F1, Hc1.
  pose proof (fifo_count _ _ _ F1) as Hn1. simpl in Hn1.
  destruct (fifo_read false rb1 _ F1) as (rb2 & Hr & F2 & _ & _ & Hc2).
  { rewrite Hc1. lia. }
  { lia. }
  assert (Hsup : suppresses false rb1 = false).
  { unfold suppresses.
    destruct (Z.eqb_spec (active_items_count rb1) 1); [lia | reflexivity]. }
  rewrite Hsup in Hr, F2. simpl in Hr, F2.
  pose proof (fifo_count _ _ _ F2) as Hn2. simpl in Hn2.
  rewrite length_take in Hn2.
  pose proof (fifo_reset_write_idx _ _ _ F2) as F2'.
  destruct (fifo_reads (length items - 1)%nat true (reset_write_idx rb2) _ F2')
    as (rb3 & Hr3 & F3 & _ & _ & _ & Hc3).
  { change (capacity (reset_write_idx rb2)) with (capacity rb2).
    rewrite Hc2, Hc1. lia. }
  { simpl. lia. }
  simpl in Hr3, F3, Hc3. rewrite length_take in Hr3, F3.
  replace (Nat.min 1 (length items) + (length items - 1))%nat
    with (length items) in Hr3, F3 by lia.
  rewrite firstn_all in Hr3, F3.
  pose proof (fifo_count _ _ _ F3) as Hn3. simpl in Hn3.
  exists rb1, rb2, rb3. unfold empty, full, size, capacity in *.
  simpl in Hc3. split_and!.
  - exact Hw.
  - apply Z.eqb_neq. lia.
  - apply Z.eqb_eq. lia.
  - exact Hr.
  - apply Z.eqb_neq. lia.
  - apply Z.eqb_neq. lia.
  - lia.
  - rewrite session_cons. exact Hr3.
  - apply Z.eqb_eq. lia.
  - apply Z.eqb_neq. lia.
Qed.

(** Non-blocking writes on a session: what fits goes in, the rest is
    dropped. *)
Lemma fifo_writes_nonblock items :
  forall rb j,
    fifo false rb j ->
    Forall (fun item => Z.of_nat (length item) = item_size rb) items ->
    let room := Z.to_nat (capacity rb - active_items_count rb) in
    exists rb',
      session (map ReqWriteNonblock items) rb j =
        Some (rb', mkJournal (source j ++ take room items) (target j)) /\
      fifo false rb' (mkJournal (source j ++ take room items) (target j)) /\
      item_size rb' = item_size rb /\
      capacity rb' = capacity rb.
Proof.
  induction items as [| item items IH]; intros rb j F Hit; cbv zeta.
  - exists rb. rewrite take_nil, app_nil_r, journal_eta. simpl. auto.
  - apply Forall_cons in Hit as [Hitem Hit].
    pose proof (fifo_bound _ _ _ F) as Hb.
    simpl map. rewrite session_cons. simpl run_call. unfold write_nonblock.
    change (full (set_should_always_drop_reads false rb)) with (full rb).
    destruct (full rb) eqn:Hfull; simpl negb; cbv iota.
    + assert (Hroom : Z.to_nat (capacity rb - active_items_count rb) = O).
      { unfold full in Hfull. apply Z.eqb_eq in Hfull. lia. }
      rewrite Hroom. simpl take.
      destruct (IH (set_should_always_drop_reads false rb) j
                  (fifo_clear_flag _ _ _ F) Hit)
        as (rb' & Hrun & F' & Hs' & Hc').
      cbv zeta in Hrun, F'.
      change (capacity (set_should_always_drop_reads false rb))
        with (capacity rb) in Hrun, F'.
      change (active_items_count (set_should_always_drop_reads false rb))
        with (active_items_count rb) in Hrun, F'.
      rewrite Hroom in Hrun, F'. simpl take in Hrun, F'.
      exists rb'. auto.
    + destruct (fifo_perform_write rb j item F Hitem Hfull)
        as (rb1 & Hw & F1 & _).
      pose proof (perform_write_dims (produce item)
                    (set_should_always_drop_reads false rb) j) as [H1 H2].
      rewrite Hw in H1, H2. simpl in H1, H2. rewrite Hw.
      pose proof (fifo_count _ _ _ F) as Hn.
      pose proof (fifo_count _ _ _ F1) as Hn1. simpl in Hn1.
      rewrite length_app in Hn1. simpl in Hn1.
      destruct (IH rb1 _ F1) as (rb' & Hrun & F' & Hs' & Hc').
      { rewrite H1. exact Hit. }
      cbv zeta in Hrun, F'. simpl source in Hrun, F'. simpl target in Hrun, F'.
      assert (Hroom : Z.to_nat (capacity rb - active_items_count rb) =
                      S (Z.to_nat (capacity rb1 - active_items_count rb1))).
      { unfold full in Hfull. apply Z.eqb_neq in Hfull.
        unfold capacity in *. lia. }
      rewrite Hroom. simpl take.
      rewrite <- app_assoc in Hrun, F'. simpl app in Hrun, F'.
      exists rb'. unfold capacity in *. split_and!; auto; congruence.
Qed.

(** Polling a session whose write cursor was reset: every poll takes the
    next item out until none is left, and does nothing from then on. *)
Lemma fifo_drain rs :
  forall rb j,
    fifo true rb j ->
    capacity rb <= 2 ^ 31 ->
    forallb is_poll_request rs = true ->
    exists rb',
      session rs rb j =
        Some (rb', mkJournal (source j)
                     (take (length (target j) + length rs) (source j))) /\
      fifo true rb'
        (mkJournal (source j)
           (take (length (target j) + length rs) (source j))) /\
      capacity rb' = capacity rb.
Proof.
  induction rs as [| r rs IH]; intros rb j F Hint Hrs.
  - exists rb. simpl. rewrite Nat.add_0_r, <- (fifo_prefix _ _ _ F), journal_eta.
    auto.
  - simpl in Hrs. apply andb_true_iff in Hrs as [Hr Hrs].
    pose proof (fifo_count _ _ _ F) as Hn.
    pose proof (fifo_bound _ _ _ F) as Hb.
    pose proof (fifo_lengths _ _ _ F) as Hlen.
    assert (Hcall : run_call (to_call r) rb j =
                    Some (if empty rb then (rb, j)
                          else perform_read consume rb j)).
    { destruct r; try discriminate; simpl;
        [unfold read_timeout | unfold read_nonblock];
        destruct (empty rb); reflexivity. }
    rewrite session_cons, Hcall.
    destruct (empty rb) eqn:He.
    + destruct (IH rb j F Hint Hrs) as (rb' & Hrun & F' & Hc').
      assert (Hall : forall n,
        take (length (target j) + n) (source j) = source j).
      { intros n. apply take_ge. unfold empty in He. apply Z.eqb_eq in He.
        lia. }
      rewrite Hall in Hrun, F'. rewrite Hall.
      exists rb'. auto.
    + destruct (fifo_perform_read true rb j F Hint He) as (rb1 & Hp & F1 & _).
      change (suppresses true rb) with false in Hp, F1. cbv iota in Hp, F1.
      pose proof (perform_read_dims consume rb j) as [_ Hd].
      rewrite Hp in Hd. simpl in Hd. rewrite Hp.
      destruct (IH rb1 _ F1 ltac:(unfold capacity in *; lia) Hrs)
        as (rb' & Hrun & F' & Hc').
      simpl source in Hrun, F'. simpl target in Hrun, F'.
      assert (Hl1 : length (take (S (length (target j))) (source j)) =
                    S (length (target j))).
      { rewrite length_take. unfold empty in He. apply Z.eqb_neq in He. lia. }
      rewrite Hl1 in Hrun, F'.
      replace (length (target j) + length (r :: rs))%nat
        with (S (length (target j)) + length rs)%nat by (simpl; lia).
      exists rb'. unfold capacity in *. split_and!; auto; congruence.
Qed.

(** X10. The scenario of [ReadWriteToBufferNonblocking]: of the items handed
    to [write_nonblock] the first [capacity] are kept and the others
    dropped; after [reset_write_idx], polling delivers the kept items in
    order, then nothing more, and the buffer ends up empty. *)
Theorem nonblocking_keeps_first_items isz cap (items : list (list byte))
    (polls : list request) :
  1 <= isz ->
  1 <= cap <= 2 ^ 31 ->
  isz * cap <= SIZE_MAX ->
  Forall (fun item => Z.of_nat (length item) = isz) items ->
  forallb is_poll_request polls = true ->
  cap <= Z.of_nat (length polls) ->
  exists rb,
    session (map ReqWriteNonblock items ++ ReqResetWriteIdx :: polls)
      (fresh isz cap) no_journal =
      Some (rb, mkJournal (take (Z.to_nat cap) items)
                  (take (Z.to_nat cap) items)) /\
    empty rb = true.
Proof.
  intros Hs Hc Hm Hit Hpolls Hk.
  pose proof (fifo_fresh isz cap Hs ltac:(lia) Hm) as F0.
  destruct (fifo_writes_nonblock items (fresh isz cap) no_journal F0 Hit)
    as (rb1 & Hw & F1 & _ & Hc1).
  cbv zeta in Hw, F1. simpl in Hw, F1, Hc1.
  rewrite Z.sub_0_r in Hw, F1.
  pose proof (fifo_reset_write_idx _ _ _ F1) as F1'.
  destruct (fifo_drain polls (reset_write_idx rb1) _ F1')
    as (rb & Hr & F & _).
  { change (capacity (reset_write_idx rb1)) with (capacity rb1). lia. }
  { exact Hpolls. }
  simpl in Hr, F.
  assert (Hall : take (length polls) (take (Z.to_nat cap) items) =
                 take (Z.to_nat cap) items).
  { apply take_ge. rewrite length_take. lia. }
  rewrite Hall in Hr, F.
  pose proof (fifo_count _ _ _ F) as Hn. simpl in Hn.
  exists rb. split.
  - rewrite session_app, Hw, session_cons. exact Hr.
  - unfold empty. apply Z.eqb_eq. lia.
Qed.

(** ** Overwriting writes *)

Lemma survivor_spec cap T i :
  1 <= cap <= T -> 0 <= i < cap ->
  0 <= survivor cap T i /\
  T - cap <= survivor cap T i < T /\
  survivor cap T i mod cap = i.
Proof.
  intros Hc Hi. unfold survivor. cbv zeta.
  pose proof (Z.mod_pos_bound T cap ltac:(lia)) as Hm.
  pose proof (Z.div_mod T cap ltac:(lia)) as Hdm.
  assert (Hq : 1 <= T / cap).
  { apply Z.div_le_lower_bound; lia. }
  destruct (Z.ltb_spec i (T mod cap)).
  - split_and!; try lia.
    symmetry. apply (Z.mod_unique_pos _ _ (T / cap)); lia.
  - split_and!; try lia.
    symmetry. apply (Z.mod_unique_pos _ _ (T / cap - 1)); lia.
Qed.

Lemma lapped_fresh isz cap :
  1 <= isz -> 1 <= cap <= 2 ^ 31 -> isz * cap <= SIZE_MAX ->
  lapped (fresh isz cap) [].
Proof.
  intros Hs Hc Hm. unfold fresh.
  constructor; unfold capacity;
    cbn [item_size max_items_count active_items_count write_idx buffer length];
    try (intros; lia); try reflexivity.
  rewrite length_replicate, to_size_t_small by nia. nia.
Qed.

(** The shared write primitive under [write_overwrite]: the item goes to
    the next slot whether or not what was there has been read. *)
Lemma lapped_perform_write rb j items item :
  lapped rb items ->
  Z.of_nat (length item) = item_size rb ->
  exists rb',
    perform_write (produce item) (set_should_always_drop_reads true rb) j =
      (rb', mkJournal (source j ++ [item]) (target j)) /\
    lapped rb' (items ++ [item]) /\
    read_idx rb' = read_idx rb /\
    dropped_reads rb' = dropped_reads rb /\
    item_size rb' = item_size rb /\
    capacity rb' = capacity rb.
Proof.
  intros L Hitem.
  destruct L as [Hs Hc Hm Hl Hn Hw Hsl].
  pose proof SIZE_MAX_ge as HM.
  set (T := Z.of_nat (length items)) in *.
  assert (Hidx : incremented_with_capacity rb (write_idx rb) = T mod capacity rb).
  { rewrite Hw. apply advance_cursor_after; lia. }
  pose proof (Z.mod_pos_bound T (capacity rb) ltac:(lia)) as HTm.
  destruct (slot_offset_fits (T mod capacity rb) (capacity rb) (item_size rb)
              HTm Hs Hm) as (Ho0 & Ho1 & Ho2).
  eexists. split; [| split; [| split_and!]].
  - rewrite perform_write_unfold. cbv zeta.
    change (incremented_with_capacity (set_should_always_drop_reads true rb)
              (write_idx (set_should_always_drop_reads true rb)))
      with (incremented_with_capacity rb (write_idx rb)).
    rewrite Hidx. unfold produce. simpl. reflexivity.
  - unfold capacity in *. constructor; simpl.
    + exact Hs.
    + exact Hc.
    + exact Hm.
    + rewrite length_inserts. exact Hl.
    + rewrite length_app. simpl. rewrite to_size_t_small by lia. lia.
    + rewrite length_app. simpl.
      replace (Z.of_nat (length items + 1)) with (T + 1) by lia.
      symmetry. apply cursor_after_succ. lia.
    + intros k Hk0 Hk. rewrite length_app in Hk. simpl in Hk.
      unfold slot_at. simpl.
      rewrite (to_size_t_small (T mod max_items_count rb * item_size rb))
        by lia.
      subst T.
      destruct (Z.eq_dec k (Z.of_nat (length items))) as [-> | Hne].
      * rewrite Nat2Z.id.
        rewrite lookup_app_r by lia. rewrite Nat.sub_diag. simpl.
        f_equal. symmetry. apply slice_inserts_same; lia.
      * rewrite lookup_app_l by lia.
        rewrite (Hsl k) by lia. f_equal. unfold slot_at. symmetry.
        apply slice_inserts_other; [lia |].
        pose proof (Z.mod_pos_bound k (max_items_count rb) ltac:(lia)).
        apply (slot_offsets_disjoint _ _ (max_items_count rb)); try lia.
        apply mod_distinct. lia.
  - reflexivity.
  - reflexivity.
  - reflexivity.
  - reflexivity.
Qed.

Lemma lapped_writes more :
  forall rb j items,
    lapped rb items ->
    Forall (fun item => Z.of_nat (length item) = item_size rb) more ->
    exists rb',
      session (map ReqWriteOverwrite more) rb j =
        Some (rb', mkJournal (source j ++ more) (target j)) /\
      lapped rb' (items ++ more) /\
      read_idx rb' = read_idx rb /\
      dropped_reads rb' = dropped_reads rb /\
      item_size rb' = item_size rb /\
      capacity rb' = capacity rb.
Proof.
  induction more as [| item more IH]; intros rb j items L Hit.
  - exists rb. simpl. rewrite !app_nil_r, journal_eta.
    split_and!; try reflexivity. exact L.
  - apply Forall_cons in Hit as [Hitem Hit].
    destruct (lapped_perform_write rb j items item L Hitem)
      as (rb1 & Hw & L1 & Hr1 & Hd1 & Hs1 & Hc1).
    destruct (IH rb1 (mkJournal (source j ++ [item]) (target j))
                (items ++ [item]) L1)
      as (rb' & Hrun & L' & Hr' & Hd' & Hs' & Hc').
    { rewrite Hs1. exact Hit. }
    simpl in Hrun. rewrite <- !app_assoc in Hrun, L'. simpl in Hrun, L'.
    exists rb'. simpl map. rewrite session_cons. simpl run_call.
    unfold write_overwrite. rewrite Hw.
    split_and!; try assumption; congruence.
Qed.

(** Polling a buffer whose write cursor was reset, whatever the flag:
    each poll hands out the slot after the read cursor, until the
    occupancy is used up. *)
Lemma drain_slots rs :
  forall rb j r,
    in_storage rb ->
    capacity rb <= 2 ^ 31 ->
    write_idx rb = SIZE_MAX ->
    0 <= r ->
    read_idx rb = cursor_after (capacity rb) r ->
    0 <= active_items_count rb <= capacity rb ->
    forallb is_poll_request rs = true ->
    let n := Nat.min (length rs) (Z.to_nat (active_items_count rb)) in
    exists rb',
      session rs rb j =
        Some (rb',
              mkJournal (source j)
                (target j ++
                 ((fun i : nat =>
                     slot_at (((r + Z.of_nat i) mod capacity rb)
                              * item_size rb) rb) <$> seq 0 n))) /\
      active_items_count rb' = active_items_count rb - Z.of_nat n /\
      buffer rb' = buffer rb.
Proof.
  induction rs as [| q rs IH]; intros rb j r Hok Hint Hw Hr0 Hr Hn Hrs;
    cbv zeta.
  - exists rb. simpl. rewrite app_nil_r, journal_eta.
    split; [reflexivity | split; [lia | reflexivity]].
  - simpl in Hrs. apply andb_true_iff in Hrs as [Hq Hrs].
    assert (Hcall : run_call (to_call q) rb j =
                    Some (if empty rb then (rb, j)
                          else perform_read consume rb j)).
    { destruct q; try discriminate; simpl;
        [unfold read_timeout | unfold read_nonblock];
        destruct (empty rb); reflexivity. }
    rewrite session_cons, Hcall.
    destruct (empty rb) eqn:He.
    + unfold empty in He. apply Z.eqb_eq in He.
      destruct (IH rb j r Hok Hint Hw Hr0 Hr Hn Hrs)
        as (rb' & Hrun & Hc' & Hb').
      cbv zeta in Hrun, Hc'. rewrite He in Hrun, Hc' |- *.
      rewrite Nat.min_0_r in Hrun, Hc' |- *.
      exists rb'. auto.
    + unfold empty in He. apply Z.eqb_neq in He.
      destruct Hok as (Hs & Hc & Hm & Hl & Hwi & Hri).
      pose proof SIZE_MAX_ge as HM.
      assert (Hidx : incremented_with_capacity rb (read_idx rb) =
                     r mod capacity rb).
      { rewrite Hr. apply advance_cursor_after; lia. }
      pose proof (Z.mod_pos_bound r (capacity rb) ltac:(lia)) as Hrm.
      destruct (slot_offset_fits _ _ _ Hrm Hs Hm) as (Ho0 & Ho1 & Ho2).
      assert (Hcond : read_collides rb
                && (should_always_drop_reads rb
                    || (dropped_reads rb <? MAX_ALLOWED_READ_DROPS)) = false).
      { unfold read_collides. rewrite Hidx, Hw.
        destruct (Z.eqb_spec (r mod capacity rb) SIZE_MAX); [lia | reflexivity]. }
      rewrite (perform_read_completes consume rb j Hcond). cbv zeta.
      rewrite Hidx, (to_size_t_small (r mod capacity rb * item_size rb)) by lia.
      unfold consume. cbn [fst snd source target].
      set (rb1 := pop (store_slot (r mod capacity rb * item_size rb)
                         (slot_at (r mod capacity rb * item_size rb) rb)
                         (set_read_idx (r mod capacity rb)
                            (set_dropped_reads 0 rb)))).
      assert (Hb1 : buffer rb1 = buffer rb).
      { unfold rb1, pop, store_slot, slot_at. simpl. apply inserts_slice_id. }
      assert (Hn1 : active_items_count rb1 = active_items_count rb - 1).
      { unfold rb1.
        apply (pop_exact (store_slot _ _ (set_read_idx _
                                           (set_dropped_reads 0 rb)))).
        simpl. lia. }
      assert (Hslot : forall off, slot_at off rb1 = slot_at off rb).
      { intros off. unfold slot_at. rewrite Hb1. reflexivity. }
      assert (Hok1 : in_storage rb1).
      { unfold in_storage. rewrite Hb1. unfold rb1, capacity in *. simpl.
        split_and!; auto. }
      assert (Hr1 : read_idx rb1 = cursor_after (capacity rb1) (r + 1)).
      { unfold rb1. simpl. symmetry. apply cursor_after_succ. lia. }
      assert (Hn1' : 0 <= active_items_count rb1 <= capacity rb1).
      { change (capacity rb1) with (capacity rb). lia. }
      destruct (IH rb1 (mkJournal (source j)
                          (target j ++
                           [slot_at (r mod capacity rb * item_size rb) rb]))
                  (r + 1) Hok1 Hint Hw ltac:(lia) Hr1 Hn1' Hrs)
        as (rb' & Hrun & Hc' & Hb').
      cbv zeta in Hrun, Hc'. cbn [source target] in Hrun.
      change (capacity rb1) with (capacity rb) in Hrun.
      change (item_size rb1) with (item_size rb) in Hrun.
      rewrite Hn1 in Hrun, Hc'.
      assert (Hmin : Nat.min (length (q :: rs))
                       (Z.to_nat (active_items_count rb)) =
                     S (Nat.min (length rs)
                          (Z.to_nat (active_items_count rb - 1))))
        by (simpl length; lia).
      rewrite Hmin. exists rb'. split; [| split; [lia | congruence]].
      rewrite Hrun. f_equal. f_equal. f_equal.
      rewrite <- app_assoc. f_equal.
      change (seq 0 (S (Nat.min (length rs)
                          (Z.to_nat (active_items_count rb - 1)))))
        with (O :: seq 1 (Nat.min (length rs)
                            (Z.to_nat (active_items_count rb - 1)))).
      rewrite fmap_cons. simpl app. f_equal.
      { simpl. rewrite Z.add_0_r. reflexivity. }
      rewrite <- fmap_S_seq, <- list_fmap_compose.
      apply list_fmap_ext. intros i x _. simpl.
      rewrite Hslot. f_equal. f_equal. f_equal. lia.
Qed.

(** X11. The scenario of [ReadWriteToBufferWithOverwrite]: after [T >=
    capacity] overwriting writes and [reset_write_idx], polling delivers
    the slots in slot order, each holding the last item written to it
    (item [survivor capacity T i] for slot [i]); the earlier items are
    lost, and the buffer ends up empty. *)
Theorem overwrite_keeps_last_items isz cap (items : list (list byte))
    (polls : list request) :
  1 <= isz ->
  1 <= cap <= 2 ^ 31 ->
  isz * cap <= SIZE_MAX ->
  Forall (fun item => Z.of_nat (length item) = isz) items ->
  cap <= Z.of_nat (length items) ->
  forallb is_poll_request polls = true ->
  cap <= Z.of_nat (length polls) ->
  exists rb j,
    session (map ReqWriteOverwrite items ++ ReqResetWriteIdx :: polls)
      (fresh isz cap) no_journal = Some (rb, j) /\
    source j = items /\
    Z.of_nat (length (target j)) = cap /\
    (forall i,
       0 <= i < cap ->
       target j !! Z.to_nat i =
       items !! Z.to_nat (survivor cap (Z.of_nat (length items)) i)) /\
    empty rb = true.
Proof.
  intros Hs Hc Hm Hit HT Hpolls Hk.
  pose proof (lapped_fresh isz cap Hs Hc Hm) as L0.
  destruct (lapped_writes items (fresh isz cap) no_journal [] L0 Hit)
    as (rb1 & Hw & L1 & Hr1 & _ & Hs1 & Hc1).
  simpl in Hw, L1, Hr1, Hs1, Hc1.
  destruct L1 as [Ls Lc Lm Ll Ln Lw Lsl].
  rewrite Hc1 in *. rewrite Hs1 in *.
  rewrite Z.min_r in Ln by lia.
  destruct (drain_slots polls (reset_write_idx rb1) (mkJournal items []) 0)
    as (rb & Hrun & Hn & _).
  - unfold in_storage, capacity in *. simpl.
    rewrite Hs1, Hc1. split_and!; auto; lia.
  - change (capacity (reset_write_idx rb1)) with (capacity rb1). lia.
  - reflexivity.
  - lia.
  - simpl. rewrite Hr1. reflexivity.
  - change (capacity (reset_write_idx rb1)) with (capacity rb1).
    change (active_items_count (reset_write_idx rb1))
      with (active_items_count rb1). lia.
  - exact Hpolls.
  - cbv zeta in Hrun, Hn.
    change (capacity (reset_write_idx rb1)) with (capacity rb1) in Hrun.
    change (item_size (reset_write_idx rb1)) with (item_size rb1) in Hrun.
    change (active_items_count (reset_write_idx rb1))
      with (active_items_count rb1) in Hrun, Hn.
    rewrite Ln in Hrun, Hn. rewrite Hc1, Hs1 in Hrun.
    replace (Nat.min (length polls) (Z.to_nat cap)) with (Z.to_nat cap)
      in Hrun, Hn by lia.
    simpl in Hrun.
    eexists rb, _. split_and!.
    + rewrite session_app, Hw, session_cons. exact Hrun.
    + reflexivity.
    + simpl. rewrite length_fmap, length_seq. lia.
    + intros i Hi. simpl.
      rewrite list_lookup_fmap, lookup_seq_lt by lia. simpl.
      rewrite Z2Nat.id by lia.
      destruct (survivor_spec cap (Z.of_nat (length items)) i ltac:(lia) Hi)
        as (Hk0 & Hkr & Hkm).
      rewrite (Lsl _ Hk0 Hkr), Hkm.
      rewrite Z.add_0_l, (Z.mod_small i cap) by lia. reflexivity.
    + unfold empty. apply Z.eqb_eq. lia.
Qed.

(** ** Resetting both cursors *)

(** X12. After [reset_write_idx] and [reset_read_idx] the consumer starts over
    from slot 0 whatever was read before: polling hands out the slots in
    storage order, one per unit of occupancy, lowers [size()] by as many,
    and leaves the storage, byte for byte, as it was. *)
Theorem reset_cursors_replay_slots rb j (polls : list request) :
  in_storage rb ->
  capacity rb <= 2 ^ 31 ->
  0 <= active_items_count rb <= capacity rb ->
  forallb is_poll_request polls = true ->
  let n := Nat.min (length polls) (Z.to_nat (active_items_count rb)) in
  exists rb',
    session (ReqResetWriteIdx :: ReqResetReadIdx :: polls) rb j =
      Some (rb',
            mkJournal (source j)
              (target j ++
               ((fun i : nat => slot_at (Z.of_nat i * item_size rb) rb)
                  <$> seq 0 n))) /\
    size rb' = size rb - Z.of_nat n /\
    buffer rb' = buffer rb.
Proof.
  intros Hok Hint Hn Hpolls. cbv zeta.
  set (rb0 := reset_read_idx (reset_write_idx rb)).
  assert (Hok0 : in_storage rb0).
  { destruct Hok as (Hs & Hc & Hm & Hl & _ & _).
    unfold in_storage, rb0, capacity in *. simpl. split_and!; auto. }
  destruct (drain_slots polls rb0 j 0 Hok0 Hint eq_refl ltac:(lia) eq_refl Hn
              Hpolls) as (rb' & Hrun & Hc' & Hb').
  cbv zeta in Hrun, Hc'.
  change (active_items_count rb0) with (active_items_count rb) in Hrun, Hc'.
  change (capacity rb0) with (capacity rb) in Hrun.
  change (item_size rb0) with (item_size rb) in Hrun.
  change (buffer rb0) with (buffer rb) in Hb'.
  exists rb'. split; [| split; [exact Hc' | exact Hb']].
  change (session (ReqResetWriteIdx :: ReqResetReadIdx :: polls) rb j)
    with (session polls rb0 j).
  rewrite Hrun.
  f_equal. f_equal. f_equal. f_equal.
  apply list_fmap_ext. intros k i Hk.
  apply lookup_seq in Hk as [-> Hlt]. simpl.
  rewrite Z.add_0_l, Z.mod_small by lia. reflexivity.
Qed.

(** ** A reader starved in overwrite mode *)

Lemma poll_overwrite_count {E : Type} (f : callback E) k :
  forall rb env,
    empty rb = false ->
    read_collides rb = true ->
    should_always_drop_reads rb = true ->
    0 <= dropped_reads rb <= UINT32_MAX ->
    poll k f rb env =
      (set_dropped_reads (to_uint32 (dropped_reads rb + Z.of_nat k)) rb, env).
Proof.
  induction k as [| k IH]; intros rb env He Hc Hf Hd.
  - simpl poll. change (Z.of_nat 0) with 0. rewrite Z.add_0_r.
    unfold to_uint32. rewrite Z.mod_small by (unfold UINT32_MAX in Hd; lia).
    rewrite set_dropped_reads_id. reflexivity.
  - simpl poll. rewrite read_nonblock_suppressed by auto.
    rewrite (IH (set_dropped_reads (to_uint32 (dropped_reads rb + 1)) rb) env
               He Hc Hf).
    + unfold set_dropped_reads. simpl. do 2 f_equal. unfold to_uint32.
      rewrite Zplus_mod_idemp_l. f_equal. lia.
    + simpl. unfold to_uint32, UINT32_MAX.
      pose proof (Z.mod_pos_bound (dropped_reads rb + 1) (2 ^ 32) ltac:(lia)).
      lia.
Qed.

(** X13. While [should_always_drop_reads] is set and the consumer's next slot
    is the producer's, polling only moves the drop counter, which counts
    modulo [2^32]: after [2^32] polls the buffer is exactly as it was and
    no callback has run. *)
Theorem starved_reader_counter_wraps {E : Type} (f : callback E) rb env :
  empty rb = false ->
  read_collides rb = true ->
  should_always_drop_reads rb = true ->
  0 <= dropped_reads rb <= UINT32_MAX ->
  (forall k,
     poll k f rb env =
       (set_dropped_reads (to_uint32 (dropped_reads rb + Z.of_nat k)) rb,
        env)) /\
  poll (Z.to_nat (UINT32_MAX - dropped_reads rb) + 1) f rb env =
    (set_dropped_reads 0 rb, env) /\
  poll (Z.to_nat (2 ^ 32)) f rb env = (rb, env).
Proof.
  intros He Hc Hf Hd. unfold UINT32_MAX in Hd. split_and!.
  - intros k. apply poll_overwrite_count; unfold UINT32_MAX; auto.
  - rewrite poll_overwrite_count by (unfold UINT32_MAX; auto).
    do 2 f_equal. unfold to_uint32, UINT32_MAX.
    replace (dropped_reads rb +
             Z.of_nat (Z.to_nat (2 ^ 32 - 1 - dropped_reads rb) + 1))
      with (2 ^ 32) by lia.
    apply Z_mod_same_full.
  - rewrite poll_overwrite_count by (unfold UINT32_MAX; auto).
    rewrite Z2Nat.id by lia. unfold to_uint32.
    replace (dropped_reads rb + 2 ^ 32) with (dropped_reads rb + 1 * 2 ^ 32)
      by lia.
    rewrite Z_mod_plus_full, Z.mod_small by lia.
    rewrite set_dropped_reads_id. reflexivity.
Qed.

(** ** A stream longer than the buffer *)

Lemma fifo_in_step items :
  forall rb j,
    fifo false rb j ->
    2 <= capacity rb <= 2 ^ 31 ->
    active_items_count rb = 1 ->
    Forall (fun item => Z.of_nat (length item) = item_size rb) items ->
    exists rb',
      session (in_step items) rb j =
        Some (rb',
              mkJournal (source j ++ items)
                (take (length (target j) + length items) (source j ++ items)))
      /\
      fifo false rb'
        (mkJournal (source j ++ items)
           (take (length (target j) + length items) (source j ++ items))) /\
      active_items_count rb' = 1 /\
      capacity rb' = capacity rb.
Proof.
  induction items as [| item items IH]; intros rb j F Hc H1 Hit.
  - exists rb. simpl. rewrite app_nil_r, Nat.add_0_r.
    rewrite <- (fifo_prefix _ _ _ F), journal_eta. auto.
  - apply Forall_cons in Hit as [Hitem Hit].
    pose proof (fifo_count _ _ _ F) as Hn.
    pose proof (fifo_lengths _ _ _ F) as Hlen.
    destruct (fifo_write rb j item F Hitem ltac:(lia))
      as (rb1 & Hw & F1 & _ & Hs1 & Hc1).
    pose proof (fifo_count _ _ _ F1) as Hn1. simpl in Hn1.
    rewrite length_app in Hn1. simpl in Hn1.
    destruct (fifo_read false rb1 _ F1 ltac:(lia) ltac:(lia))
      as (rb2 & Hr & F2 & _ & Hs2 & Hc2).
    assert (Hsup : suppresses false rb1 = false).
    { unfold suppresses.
      destruct (Z.eqb_spec (active_items_count rb1) 1); [lia | reflexivity]. }
    rewrite Hsup in Hr, F2. cbn [source target] in Hr, F2.
    pose proof (fifo_count _ _ _ F2) as Hn2. cbn [source target] in Hn2.
    rewrite length_take, length_app in Hn2. cbn [length] in Hn2.
    destruct (IH rb2 _ F2) as (rb' & Hrun & F' & H1' & Hc').
    + lia.
    + lia.
    + rewrite Hs2, Hs1. exact Hit.
    + cbn [source target] in Hrun, F'.
      rewrite length_take, length_app in Hrun, F'.
      cbn [length] in Hrun, F'.
      rewrite <- app_assoc in Hrun, F'. cbn [app] in Hrun, F'.
      replace (Nat.min (S (length (target j))) (length (source j) + 1)
               + length items)%nat
        with (length (target j) + S (length items))%nat in Hrun, F' by lia.
      exists rb'.
      change (in_step (item :: items))
        with (ReqWrite item :: ReqRead :: in_step items).
      rewrite session_cons. simpl run_call. rewrite Hw. cbv beta iota.
      rewrite session_cons. simpl run_call. rewrite Hr. cbv beta iota.
      cbn [length]. split_and!; auto. lia.
Qed.

(** X14. Any number of items through a buffer of two slots or more: with the
    consumer one item behind the producer, every blocking write and read
    returns, the cursors go round the ring as often as it takes, and
    after [reset_write_idx] and a last read the consumer holds all the
    items in the order written. *)
Theorem stream_keeps_order isz cap first (items : list (list byte)) :
  1 <= isz ->
  2 <= cap <= 2 ^ 31 ->
  isz * cap <= SIZE_MAX ->
  Forall (fun item => Z.of_nat (length item) = isz) (first :: items) ->
  exists rb,
    session (ReqWrite first :: in_step items ++ [ReqResetWriteIdx; ReqRead])
      (fresh isz cap) no_journal =
      Some (rb, mkJournal (first :: items) (first :: items)) /\
    empty rb = true.
Proof.
  intros Hs Hc Hm Hit. apply Forall_cons in Hit as [Hfirst Hit].
  pose proof (fifo_fresh isz cap Hs ltac:(lia) Hm) as F0.
  destruct (fifo_write (fresh isz cap) no_journal first F0 Hfirst
              ltac:(simpl; lia)) as (rb1 & Hw & F1 & _ & Hs1 & Hc1).
  simpl in Hw, F1, Hs1, Hc1.
  pose proof (fifo_count _ _ _ F1) as Hn1. simpl in Hn1.
  destruct (fifo_in_step items rb1 _ F1) as (rb2 & Hrun & F2 & H2 & Hc2).
  { lia. }
  { lia. }
  { rewrite Hs1. exact Hit. }
  cbn [source target length app Nat.add] in Hrun, F2.
  pose proof (fifo_reset_write_idx _ _ _ F2) as F2'.
  destruct (fifo_read true (reset_write_idx rb2) _ F2')
    as (rb3 & Hr & F3 & _).
  { change (capacity (reset_write_idx rb2)) with (capacity rb2). lia. }
  { simpl. lia. }
  change (suppresses true (reset_write_idx rb2)) with false in Hr, F3.
  cbv iota in Hr, F3. cbn [source target] in Hr, F3.
  assert (Hall : take (S (length (take (length items) (first :: items))))
                   (first :: items) = first :: items).
  { apply take_ge. rewrite length_take. simpl. lia. }
  rewrite Hall in Hr, F3.
  pose proof (fifo_count _ _ _ F3) as Hn3. simpl in Hn3.
  exists rb3. split.
  - rewrite session_cons. simpl run_call. rewrite Hw. cbv beta iota.
    rewrite session_app, Hrun. cbv beta iota.
    rewrite session_cons. simpl run_call. cbv beta iota.
    rewrite session_cons. simpl run_call. rewrite Hr. reflexivity.
  - unfold empty. apply Z.eqb_eq. lia.
Qed.

(** ** Writes followed by reads, and the item left behind *)

Lemma fifo_set_dropped d rb j v :
  fifo d rb j -> 0 <= v <= MAX_ALLOWED_READ_DROPS ->
  fifo d (set_dropped_reads v rb) j.
Proof.
  intros [Hs Hc Hm Hl Hit Hp Hn Hb Hw Hr Hsl Hf Hd] Hv.
  constructor; simpl; assumption.
Qed.

(** Blocking reads that find the consumer's next slot held by the
    producer: below the threshold each of them returns at once and only
    counts. *)
Lemma reads_threshold_mode k :
  forall rb j,
    empty rb = false ->
    read_collides rb = true ->
    should_always_drop_reads rb = false ->
    0 <= dropped_reads rb ->
    k = O \/ dropped_reads rb + Z.of_nat k <= MAX_ALLOWED_READ_DROPS ->
    session (replicate k ReqRead) rb j =
      Some (set_dropped_reads (dropped_reads rb + Z.of_nat k) rb, j).
Proof.
  induction k as [| k IH]; intros rb j He Hc Hf Hd0 Hk.
  - simpl. change (Z.of_nat 0) with 0.
    rewrite Z.add_0_r, set_dropped_reads_id. reflexivity.
  - destruct Hk as [Hk | Hk]; [discriminate |].
    change (replicate (S k) ReqRead) with (ReqRead :: replicate k ReqRead).
    rewrite session_cons. simpl run_call. unfold read. rewrite He. simpl negb.
    cbv iota.
    rewrite perform_read_suppressed by (auto; right; lia).
    rewrite to_uint32_succ
      by (unfold UINT32_MAX, MAX_ALLOWED_READ_DROPS, UINT16_MAX in *; lia).
    cbv beta iota.
    rewrite (IH (set_dropped_reads (dropped_reads rb + 1) rb) j He Hc Hf)
      by (simpl; lia).
    simpl. unfold set_dropped_reads. simpl. do 3 f_equal. lia.
Qed.

(** C2, as the code has it.  For capacities up to [2^31] and whatever
    the items, [N <= capacity] blocking writes followed by [N] blocking
    reads on a fresh buffer deliver the first [N - 1] items in the order
    written, and the [N]-th read is suppressed by the collision rule: it
    returns, and all it changes is the drop counter.  The last item does
    not stay unread until the write cursor is reset.  After
    [reset_write_idx] the next read delivers it; without any reset,
    further reads are suppressed until the drop counter stands at
    [MAX_ALLOWED_READ_DROPS], and the read after those is forced and
    delivers it, the write cursor still on its slot. *)
Theorem writes_then_reads_all_but_last isz cap (items : list (list byte)) :
  1 <= isz ->
  1 <= Z.of_nat (length items) <= cap ->
  cap <= 2 ^ 31 ->
  isz * cap <= SIZE_MAX ->
  Forall (fun item => Z.of_nat (length item) = isz) items ->
  let N := length items in
  let writes := map ReqWrite items in
  exists rb1 rb2 rb3 rb4 j1,
    session (writes ++ replicate (N - 1) ReqRead) (fresh isz cap) no_journal =
      Some (rb1, j1) /\
    source j1 = items /\
    target j1 = take (N - 1) items /\
    read_collides rb1 = true /\
    read consume rb1 j1 = Some (rb2, j1) /\
    rb2 = set_dropped_reads 1 rb1 /\
    session (writes ++ replicate N ReqRead) (fresh isz cap) no_journal =
      Some (rb2, j1) /\
    size rb2 = 1 /\
    session [ReqResetWriteIdx; ReqRead] rb2 j1 =
      Some (rb3, mkJournal items items) /\
    empty rb3 = true /\
    (forall k,
       1 + Z.of_nat k <= MAX_ALLOWED_READ_DROPS ->
       session (replicate k ReqRead) rb2 j1 =
         Some (set_dropped_reads (1 + Z.of_nat k) rb2, j1)) /\
    session (replicate (Z.to_nat MAX_ALLOWED_READ_DROPS) ReqRead) rb2 j1 =
      Some (rb4, mkJournal items items) /\
    write_idx rb4 = write_idx rb2 /\
    write_idx rb4 <> SIZE_MAX /\
    empty rb4 = true.
Proof.
  intros Hs HN Hint Hm Hit. cbv zeta.
  pose proof SIZE_MAX_ge as HM.
  pose proof (fifo_fresh isz cap Hs ltac:(lia) Hm) as F0.
  destruct (fifo_writes items (fresh isz cap) no_journal F0 Hit)
    as (rbw & Hw & Fw & Hdw & Hsw & Hcw).
  { simpl. lia. }
  simpl in Hw, Fw, Hdw, Hsw, Hcw.
  pose proof (fifo_count _ _ _ Fw) as Hnw. simpl in Hnw.
  destruct (fifo_reads (length items - 1)%nat false rbw _ Fw) as
    (rb1 & Hr & F1 & Hd1 & He1 & Hs1 & Hc1).
  { rewrite Hcw. exact Hint. }
  { left. lia. }
  simpl in Hr, F1.
  set (j1 := mkJournal items (take (length items - 1) items)) in *.
  pose proof (fifo_count _ _ _ F1) as Hn1. simpl in Hn1.
  rewrite length_take in Hn1.
  assert (Hone : active_items_count rb1 = 1) by lia.
  assert (Hdr : dropped_reads rb1 = 0).
  { destruct (Nat.eq_dec (length items - 1)%nat 0%nat) as [Hz | Hz].
    - rewrite (He1 Hz). exact Hdw.
    - exact (Hd1 Hz). }
  assert (He : empty rb1 = false).
  { unfold empty. rewrite Hone. reflexivity. }
  assert (Hsup : suppresses false rb1 = true).
  { unfold suppresses. rewrite Hone, Hdr. reflexivity. }
  destruct (fifo_suppresses false rb1 j1 F1 He) as [Hcond _].
  rewrite Hsup in Hcond.
  assert (Hcol : read_collides rb1 = true).
  { apply andb_true_iff in Hcond as [H _]. exact H. }
  assert (Hflag : should_always_drop_reads rb1 = false).
  { apply (fifo_flag _ _ _ F1). simpl. intros Hnil. rewrite Hnil in HN.
    simpl in HN. lia. }
  set (rb2 := set_dropped_reads 1 rb1).
  assert (Hr2 : read consume rb1 j1 = Some (rb2, j1)).
  { unfold read. rewrite He. simpl.
    rewrite perform_read_suppressed by (auto; right; rewrite Hdr; reflexivity).
    rewrite Hdr. reflexivity. }
  assert (F2 : fifo false rb2 j1).
  { apply fifo_set_dropped; [exact F1 |].
    unfold MAX_ALLOWED_READ_DROPS, UINT16_MAX. lia. }
  assert (Hcap2 : capacity rb2 = cap).
  { change (capacity rb2) with (capacity rb1). rewrite Hc1. exact Hcw. }
  (* realigned *)
  pose proof (fifo_reset_write_idx _ _ _ F2) as F2'.
  destruct (fifo_read true (reset_write_idx rb2) _ F2')
    as (rb3 & Hr3 & F3 & Hd3 & Hs3 & Hc3).
  { change (capacity (reset_write_idx rb2)) with (capacity rb2). lia. }
  { simpl. lia. }
  assert (Hall : take (S (length (target j1))) (source j1) = items).
  { simpl. apply take_ge. rewrite length_take. lia. }
  change (suppresses true (reset_write_idx rb2)) with false in Hr3, F3.
  cbv iota in Hr3, F3. rewrite Hall in Hr3, F3.
  change (source j1) with items in Hr3, F3.
  pose proof (fifo_count _ _ _ F3) as Hn3. simpl in Hn3.
  (* not realigned *)
  assert (Hthr : forall k,
    1 + Z.of_nat k <= MAX_ALLOWED_READ_DROPS ->
    session (replicate k ReqRead) rb2 j1 =
      Some (set_dropped_reads (1 + Z.of_nat k) rb2, j1)).
  { intros k Hk.
    apply (reads_threshold_mode k rb2 j1 He Hcol Hflag); simpl; lia. }
  set (rbm := set_dropped_reads MAX_ALLOWED_READ_DROPS rb2).
  assert (Fm : fifo false rbm j1).
  { apply fifo_set_dropped; [exact F2 |].
    unfold MAX_ALLOWED_READ_DROPS, UINT16_MAX. lia. }
  destruct (fifo_read false rbm _ Fm) as (rb4 & Hr4 & F4 & Hd4 & Hs4 & Hc4).
  { change (capacity rbm) with (capacity rb2). lia. }
  { simpl. lia. }
  assert (Hsupm : suppresses false rbm = false).
  { unfold suppresses, rbm. simpl. rewrite Hone. simpl.
    apply Z.ltb_irrefl. }
  rewrite Hsupm in Hr4, F4. rewrite Hall in Hr4, F4.
  change (source j1) with items in Hr4, F4.
  pose proof (fifo_count _ _ _ F4) as Hn4. simpl in Hn4.
  pose proof (fifo_write_idx _ _ _ F4) as Hw4. simpl in Hw4.
  pose proof (fifo_write_idx _ _ _ F2) as Hw2. simpl in Hw2.
  assert (Hc4' : capacity rb4 = cap).
  { rewrite Hc4. change (capacity rbm) with (capacity rb2). exact Hcap2. }
  exists rb1, rb2, rb3, rb4, j1.
  split_and!.
  - rewrite session_app, Hw. exact Hr.
  - reflexivity.
  - reflexivity.
  - exact Hcol.
  - exact Hr2.
  - reflexivity.
  - assert (Hrep : replicate (length items) ReqRead =
                   replicate (length items - 1) ReqRead ++ [ReqRead]).
    { replace (length items) with ((length items - 1) + 1)%nat at 1 by lia.
      rewrite replicate_add. reflexivity. }
    rewrite Hrep, app_assoc, session_app.
    rewrite session_app, Hw, Hr. unfold session. simpl. rewrite Hr2.
    reflexivity.
  - unfold size. simpl. exact Hone.
  - unfold session. simpl. rewrite Hr3. reflexivity.
  - unfold empty. apply Z.eqb_eq. lia.
  - exact Hthr.
  - assert (Hrep : replicate (Z.to_nat MAX_ALLOWED_READ_DROPS) ReqRead =
                   replicate (Z.to_nat (MAX_ALLOWED_READ_DROPS - 1)) ReqRead
                   ++ [ReqRead]).
    { replace (Z.to_nat MAX_ALLOWED_READ_DROPS)
        with (Z.to_nat (MAX_ALLOWED_READ_DROPS - 1) + 1)%nat at 1
        by (unfold MAX_ALLOWED_READ_DROPS, UINT16_MAX; lia).
      rewrite replicate_add. reflexivity. }
    rewrite Hrep, session_app.
    rewrite Hthr
      by (unfold MAX_ALLOWED_READ_DROPS, UINT16_MAX; lia).
    replace (1 + Z.of_nat (Z.to_nat (MAX_ALLOWED_READ_DROPS - 1)))
      with MAX_ALLOWED_READ_DROPS
      by (unfold MAX_ALLOWED_READ_DROPS, UINT16_MAX; lia).
    change (set_dropped_reads MAX_ALLOWED_READ_DROPS rb2) with rbm.
    rewrite session_cons. simpl run_call. rewrite Hr4. reflexivity.
  - rewrite Hw4. change (write_idx rb2) with (write_idx rb1).
    rewrite Hw2, Hc4'. change (max_items_count rb1) with (capacity rb2).
    rewrite Hcap2. reflexivity.
  - rewrite Hw4, Hc4'. unfold cursor_after.
    destruct (Z.eqb_spec (Z.of_nat (length items)) 0); [lia |].
    pose proof (Z.mod_pos_bound (Z.of_nat (length items) - 1) cap ltac:(lia)).
    lia.
  - unfold empty. apply Z.eqb_eq. lia.
Qed.

(** The same buffer of more than [2^31] items with its write cursor
    reset: the read does not collide, it runs its callback and advances
    the read cursor, and [pop] wipes the occupancy all the same. *)
Lemma large_session_sentinel_read (items : list (list byte)) :
  Z.of_nat (length items) = 2 ^ 31 + 1 ->
  Forall (fun item => Z.of_nat (length item) = 1) items ->
  exists rb j rb' j',
    session (map ReqWrite items ++ [ReqResetWriteIdx])
      (fresh 1 (2 ^ 31 + 1)) no_journal = Some (rb, j) /\
    write_idx rb = SIZE_MAX /\
    capacity rb = 2 ^ 31 + 1 /\
    size rb = 2 ^ 31 + 1 /\
    read_idx rb = SIZE_MAX /\
    read_collides rb = false /\
    perform_read consume rb j = (rb', j') /\
    read consume rb j = Some (rb', j') /\
    target j = [] /\
    target j' = take 1 items /\
    read_idx rb' = 0 /\
    size rb' = 0.
Proof.
  intros HN Hit.
  pose proof SIZE_MAX_ge as HM.
  pose proof (fifo_fresh 1 (2 ^ 31 + 1) ltac:(lia) ltac:(lia) ltac:(lia)) as F0.
  destruct (fifo_writes items (fresh 1 (2 ^ 31 + 1)) no_journal F0 Hit)
    as (rbw & Hw & Fw & Hd & Hs & Hc).
  { simpl. lia. }
  simpl in Hw, Fw, Hd, Hs, Hc.
  pose proof (fifo_reset_write_idx _ _ _ Fw) as F.
  set (rb := reset_write_idx rbw) in *.
  pose proof (fifo_count _ _ _ F) as Hn. simpl in Hn.
  assert (He : empty rb = false) by (unfold empty; apply Z.eqb_neq; simpl; lia).
  destruct (fifo_suppresses true rb _ F He) as [Hcond Hidx].
  cbn [target length] in Hidx. change (Z.of_nat 0) with 0 in Hidx.
  change (capacity rb) with (capacity rbw) in Hidx.
  rewrite Z.mod_0_l in Hidx by lia.
  change (suppresses true rb) with false in Hcond.
  pose proof (fifo_slots _ _ _ F 0 ltac:(simpl; lia)) as Hslot.
  cbn [source target length] in Hslot. change (Z.to_nat 0) with O in Hslot.
  change (capacity rb) with (capacity rbw) in Hslot.
  rewrite Z.mod_0_l in Hslot by lia.
  change (0 * item_size rb) with 0 in Hslot.
  pose proof (fifo_read_idx _ _ _ F) as Hri. simpl in Hri.
  assert (Hcol : read_collides rb = false).
  { unfold read_collides. rewrite Hidx.
    change (write_idx rb) with SIZE_MAX. apply Z.eqb_neq. lia. }
  assert (Hpop : active_items_count (pop rb) = 0).
  { unfold pop, set_active_items_count. cbn [active_items_count].
    replace (active_items_count rb - 1) with (2 ^ 31) by (simpl; lia).
    rewrite (to_size_t_small (2 ^ 31)) by lia.
    change (to_int (2 ^ 31)) with (- 2 ^ 31).
    rewrite Z.max_r by lia. apply to_size_t_small. lia. }
  assert (Hread : perform_read consume rb (mkJournal items []) =
                  (pop (store_slot 0 (slot_at 0 rb)
                          (set_read_idx 0 (set_dropped_reads 0 rb))),
                   mkJournal items [slot_at 0 rb])).
  { rewrite (perform_read_completes consume rb _ Hcond). cbv zeta.
    rewrite Hidx. change (0 * item_size rb) with 0.
    rewrite (to_size_t_small 0) by lia. reflexivity. }
  eexists rb, _, _, _. split_and!.
  - rewrite session_app, Hw. reflexivity.
  - reflexivity.
  - exact Hc.
  - unfold size. simpl. simpl in Hn. lia.
  - exact Hri.
  - exact Hcol.
  - exact Hread.
  - unfold read. rewrite He. simpl. rewrite Hread. reflexivity.
  - reflexivity.
  - simpl. rewrite (take_S_r items 0 _ Hslot). reflexivity.
  - reflexivity.
  - unfold size. unfold pop in *. simpl in *. exact Hpop.
Qed.

End Operations.

(** ** The defect of [pop] on a 64-bit target

    [size_t] is 64 bits wide and [int] 32.  A buffer of [2^31 + 1]
    one-byte items is filled by as many blocking writes. *)

Lemma large_items_length : Z.of_nat (length large_items) = 2 ^ 31 + 1.
Proof.
  unfold large_items. rewrite length_replicate. unfold large. lia.
Qed.

Lemma large_items_bytes :
  Forall (fun item : list byte => Z.of_nat (length item) = 1) large_items.
Proof. unfold large_items. apply Forall_replicate. reflexivity. Qed.

Lemma large_items_first : take 1 large_items = [[x00]].
Proof.
  unfold large_items.
  assert (H : Z.to_nat large = S (Z.to_nat (2 ^ 31))) by (unfold large; lia).
  rewrite H. generalize (Z.to_nat (2 ^ 31)). intros m. reflexivity.
Qed.

(** C5 at its failing input.  After [2^31 + 1] writes [size()] is
    [2^31 + 1]; the first read completes, hands out the first item, and
    leaves [size()] at 0 instead of [2^31]: [pop] did not decrement by
    one. *)
Theorem pop_wipes_large_occupancy :
  exists rb j rb' j',
    session 64 (map ReqWrite large_items) (fresh 64 1 large) no_journal =
      Some (rb, j) /\
    size rb = large /\
    read 64 consume rb j = Some (rb', j') /\
    target j' = [[x00]] /\
    size rb' = 0 /\
    size rb' <> size rb - 1.
Proof.
  destruct (large_session_first_read 64 ltac:(lia) large_items
              large_items_length large_items_bytes)
    as (rb & j & rb' & j' & Hw & Hsrc & Htgt & Hsize & Hr & Ht & Hz & _).
  exists rb, j, rb', j'. fold large in Hw, Hsize. split_and!.
  - exact Hw.
  - exact Hsize.
  - exact Hr.
  - rewrite Ht. apply large_items_first.
  - exact Hz.
  - rewrite Hz, Hsize. unfold large. lia.
Qed.

(** C9 at its failing input.  The constructor returns the buffer of
    [2^31 + 1] one-byte items; as many writes fill it and
    [reset_write_idx] puts the write cursor on the sentinel.  The read
    that follows cannot collide: it hands the first item to its callback
    and advances the read cursor to slot 0.  But it leaves [size()] at 0
    instead of [2^31]: the occupancy was not decremented. *)
Theorem sentinel_read_wipes_large_occupancy :
  ThreadSafeRingBuffer_ctor 64 heap_of_examples 1 large =
    Constructed (fresh 64 1 large) /\
  exists rb j rb' j',
    session 64 (map ReqWrite large_items ++ [ReqResetWriteIdx])
      (fresh 64 1 large) no_journal = Some (rb, j) /\
    write_idx rb = SIZE_MAX 64 /\
    1 <= capacity rb /\
    size rb = large /\
    read_collides 64 rb = false /\
    perform_read 64 consume rb j = (rb', j') /\
    read 64 consume rb j = Some (rb', j') /\
    target j = [] /\
    target j' = [[x00]] /\
    read_idx rb = SIZE_MAX 64 /\
    read_idx rb' = 0 /\
    size rb' = 0 /\
    size rb' <> size rb - 1.
Proof.
  split.
  { apply ctor_fresh.
    - lia.
    - vm_compute. split; intro; discriminate.
    - vm_compute. split; intro; discriminate.
    - vm_compute. intro. discriminate.
    - vm_compute. intro. discriminate. }
  destruct (large_session_sentinel_read 64 ltac:(lia) large_items
              large_items_length large_items_bytes)
    as (rb & j & rb' & j' & Hw & Hwi & Hc & Hsize & Hri & Hcol & Hp & Hr
        & Htj & Ht & Hri' & Hz).
  exists rb, j, rb', j'. fold large in Hw, Hsize, Hc. split_and!.
  - exact Hw.
  - exact Hwi.
  - rewrite Hc. unfold large. lia.
  - exact Hsize.
  - exact Hcol.
  - exact Hp.
  - exact Hr.
  - exact Htj.
  - rewrite Ht. apply large_items_first.
  - exact Hri.
  - exact Hri'.
  - exact Hz.
  - rewrite Hz, Hsize. unfold large. lia.
Qed.

(** ** The statements at work on the buffer of the tests

    [ITEM_SIZE = 4], [ITEM_COUNT = 3], 64-bit [size_t]. *)

(** After one [write_overwrite] the consumer's first slot is the
    producer's: the read is dropped and counted. *)
Lemma perform_read_drop_policy_witness :
  let rb := state_after 64 4 3 [ReqWriteOverwrite AAAA] in
  read_collides 64 rb = true /\
  should_always_drop_reads rb = true /\
  snd (perform_read 64 consume rb no_journal) = no_journal /\
  read_idx (fst (perform_read 64 consume rb no_journal)) = read_idx rb /\
  dropped_reads (fst (perform_read 64 consume rb no_journal)) = 1.
Proof.
  cbv zeta.
  set (rb := state_after 64 4 3 [ReqWriteOverwrite AAAA]).
  assert (Hr : 0 <= dropped_reads rb <= UINT32_MAX)
    by (vm_compute; split; intro; discriminate).
  assert (Hc : read_collides 64 rb = true) by reflexivity.
  assert (Hf : should_always_drop_reads rb = true) by reflexivity.
  assert (Hlt : dropped_reads rb < UINT32_MAX) by reflexivity.
  destruct (perform_read_drop_policy 64 consume rb no_journal Hr)
    as (H1 & _ & _).
  destruct (H1 Hc (or_introl Hf)) as (Ha & Hb & _ & _ & _ & _ & Hd & _).
  split; [exact Hc |]. split; [exact Hf |]. split; [exact Ha |].
  split; [exact Hb |]. exact (Hd Hlt).
Defined.

Lemma write_nonblock_drops_when_full_witness :
  let rb := state_after 64 4 3 [ReqWrite AAAA; ReqWrite BBBB; ReqWrite CCCC] in
  full rb = true /\
  snd (write_nonblock 64 (produce DDDD) rb no_journal) = no_journal /\
  buffer (fst (write_nonblock 64 (produce DDDD) rb no_journal)) = buffer rb /\
  full (fresh 64 4 3) = false /\
  write_nonblock 64 (produce AAAA) (fresh 64 4 3) no_journal =
    perform_write 64 (produce AAAA)
      (set_should_always_drop_reads false (fresh 64 4 3)) no_journal.
Proof.
  cbv zeta.
  set (rb := state_after 64 4 3 [ReqWrite AAAA; ReqWrite BBBB; ReqWrite CCCC]).
  assert (Hfull : full rb = true) by reflexivity.
  assert (Hroom : full (fresh 64 4 3) = false) by reflexivity.
  destruct (write_nonblock_drops_when_full 64 (produce DDDD) rb no_journal)
    as (H1 & _).
  destruct (H1 Hfull) as (Ha & Hb & _).
  destruct (write_nonblock_drops_when_full 64 (produce AAAA) (fresh 64 4 3)
              no_journal) as (_ & H2).
  destruct (H2 Hroom) as (Hc & _).
  split; [exact Hfull |]. split; [exact Ha |]. split; [exact Hb |].
  split; [exact Hroom |]. exact Hc.
Defined.

Lemma sentinel_first_advance_witness :
  32 <= 64 /\
  ThreadSafeRingBuffer_ctor 64 heap_of_examples 4 3 =
    Constructed (fresh 64 4 3) /\
  write_idx (fresh 64 4 3) = SIZE_MAX 64 /\
  read_idx (fresh 64 4 3) = SIZE_MAX 64 /\
  1 <= capacity (fresh 64 4 3) /\
  load WriteIdx (fresh 64 4 3) = SIZE_MAX 64 /\
  increment_with_capacity 64 WriteIdx (fresh 64 4 3) =
    (0, store WriteIdx 0 (fresh 64 4 3)) /\
  2 <> SIZE_MAX 64.
Proof.
  assert (Hw : 32 <= 64) by lia.
  assert (Hc : 1 <= capacity (fresh 64 4 3)) by (vm_compute; intro; discriminate).
  assert (Hl : load WriteIdx (fresh 64 4 3) = SIZE_MAX 64) by reflexivity.
  assert (Hctor : ThreadSafeRingBuffer_ctor 64 heap_of_examples 4 3 =
                  Constructed (fresh 64 4 3)) by reflexivity.
  destruct (sentinel_first_advance 64 heap_of_examples Hw)
    as (Hinit & _ & Hslot & _ & Hadv).
  destruct (Hinit 4 3 (fresh 64 4 3) Hctor) as [Hwi Hri].
  destruct (Hadv WriteIdx (fresh 64 4 3) Hc Hl) as (Ha & _).
  split; [exact Hw |]. split; [exact Hctor |].
  split; [exact Hwi |]. split; [exact Hri |].
  split; [exact Hc |]. split; [exact Hl |].
  split; [exact Ha |].
  apply (Hslot (fresh 64 4 3) 2).
  - vm_compute. intro. discriminate.
  - vm_compute. split; [intro; discriminate | reflexivity].
Defined.

Lemma increment_with_capacity_spec_witness :
  let rb := state_after 64 4 3 [ReqWrite AAAA; ReqWrite BBBB; ReqWrite CCCC] in
  load WriteIdx rb = 2 /\
  fst (increment_with_capacity 64 WriteIdx rb) = (2 + 1) mod 3 /\
  load WriteIdx (snd (increment_with_capacity 64 WriteIdx rb)) =
    fst (increment_with_capacity 64 WriteIdx rb) /\
  fst (increment_with_capacity 64 WriteIdx rb) =
    incremented_with_capacity 64 rb (load WriteIdx rb).
Proof.
  cbv zeta.
  set (rb := state_after 64 4 3 [ReqWrite AAAA; ReqWrite BBBB; ReqWrite CCCC]).
  assert (Hc : 1 <= capacity rb) by (vm_compute; intro; discriminate).
  assert (Hl : 0 <= load WriteIdx rb <= SIZE_MAX 64)
    by (vm_compute; split; intro; discriminate).
  assert (Hlt : load WriteIdx rb < SIZE_MAX 64) by reflexivity.
  destruct (increment_with_capacity_spec 64 WriteIdx rb Hc Hl)
    as (_ & Hb & _ & _ & Hs & _ & _ & _ & He).
  split; [reflexivity |]. split; [exact (Hb Hlt) |].
  split; [exact Hs | exact He].
Defined.

(** With the write cursor reset, the first of three buffered items is
    read and two are left. *)
Lemma sentinel_write_idx_never_collides_witness :
  let rb :=
    state_after 64 4 3
      [ReqWrite AAAA; ReqWrite BBBB; ReqWrite CCCC; ReqResetWriteIdx] in
  write_idx rb = SIZE_MAX 64 /\
  read_collides 64 rb = false /\
  target (snd (perform_read 64 consume rb no_journal)) = [AAAA] /\
  read_idx (fst (perform_read 64 consume rb no_journal)) = 0 /\
  active_items_count (fst (perform_read 64 consume rb no_journal)) = 2.
Proof.
  cbv zeta.
  set (rb := state_after 64 4 3
               [ReqWrite AAAA; ReqWrite BBBB; ReqWrite CCCC; ReqResetWriteIdx]).
  assert (Hw : 32 <= 64) by lia.
  assert (Hc : 1 <= capacity rb <= SIZE_MAX 64)
    by (vm_compute; split; intro; discriminate).
  assert (Hs : write_idx rb = SIZE_MAX 64) by reflexivity.
  assert (Hn : 1 <= active_items_count rb <= 2 ^ 31)
    by (vm_compute; split; intro; discriminate).
  destruct (sentinel_write_idx_never_collides 64 Hw consume rb no_journal Hc Hs)
    as (_ & _ & Hno & Hcb & Hidx & _ & _ & _ & Hdec).
  split; [exact Hs |]. split; [exact Hno |].
  split; [rewrite Hcb; reflexivity |].
  split; [exact Hidx | exact (Hdec Hn)].
Defined.

Lemma dropped_write_nonblock_clears_flag_witness :
  let rb :=
    state_after 64 4 3
      [ReqWriteOverwrite AAAA; ReqWriteOverwrite BBBB; ReqWriteOverwrite CCCC;
       ReqWriteOverwrite DDDD] in
  let rb' := fst (write_nonblock 64 (produce AAAA) rb no_journal) in
  full rb = true /\
  should_always_drop_reads rb = true /\
  read_collides 64 rb = true /\
  should_always_drop_reads rb' = false /\
  buffer rb' = buffer rb /\
  dropped_reads rb' = dropped_reads rb /\
  snd (poll 64 5 consume rb no_journal) = no_journal /\
  target
    (snd (poll 64 (Z.to_nat (MAX_ALLOWED_READ_DROPS - dropped_reads rb) + 1)
            consume rb' no_journal)) = [DDDD].
Proof.
  cbv zeta.
  set (rb := state_after 64 4 3
               [ReqWriteOverwrite AAAA; ReqWriteOverwrite BBBB;
                ReqWriteOverwrite CCCC; ReqWriteOverwrite DDDD]).
  assert (Hw : 32 <= 64) by lia.
  assert (Hc : 1 <= capacity rb) by (vm_compute; intro; discriminate).
  assert (Hfull : full rb = true) by reflexivity.
  assert (Hd : 0 <= dropped_reads rb <= UINT32_MAX)
    by (vm_compute; split; intro; discriminate).
  assert (Hflag : should_always_drop_reads rb = true) by reflexivity.
  assert (Hcol : read_collides 64 rb = true) by reflexivity.
  destruct (dropped_write_nonblock_clears_flag 64 (produce AAAA) consume rb
              no_journal Hc Hfull Hd)
    as (_ & Hf & Hb & _ & _ & _ & _ & _ & Hdr & Hpol).
  destruct (Hpol Hcol) as (Hover & _ & _ & Hforced & _).
  destruct (Hover Hflag 5%nat) as (Hquiet & _).
  split; [exact Hfull |]. split; [exact Hflag |]. split; [exact Hcol |].
  split; [exact Hf |]. split; [exact Hb |]. split; [exact Hdr |].
  split; [exact Hquiet |]. rewrite Hforced. reflexivity.
Defined.

Lemma empty_only_after_all_read_witness :
  exists rb j,
    session 64
      [ReqWrite AAAA; ReqWrite BBBB; ReqWrite CCCC; ReqRead;
       ReqResetWriteIdx; ReqRead; ReqRead] (fresh 64 4 3) no_journal =
      Some (rb, j) /\
    target j = [AAAA; BBBB; CCCC] /\
    (empty rb = true <-> target j = source j).
Proof.
  eexists _, _. split; [vm_compute; reflexivity |].
  split; [reflexivity |].
  assert (Hw : 32 <= 64) by lia.
  refine (proj1 (proj2 (proj2
    (empty_only_after_all_read 64 Hw 4 3
       [ReqWrite AAAA; ReqWrite BBBB; ReqWrite CCCC; ReqRead;
        ReqResetWriteIdx; ReqRead; ReqRead] _ _ _ _ _ _ _)))).
  - lia.
  - lia.
  - vm_compute. intro. discriminate.
  - reflexivity.
  - vm_compute. reflexivity.
Defined.

(** Three items through the buffer of the tests: two come out, the
    third waits for the reset of the write cursor. *)
Lemma writes_then_reads_keep_order_witness :
  exists rb j,
    session 64 (map ReqWrite [AAAA; BBBB; CCCC] ++ replicate 3 ReqRead)
      (fresh 64 4 3) no_journal = Some (rb, j) /\
    target j = [AAAA; BBBB] /\
    size rb = 1 /\
    journal_after 64 4 3
      (map ReqWrite [AAAA; BBBB; CCCC] ++ replicate 3 ReqRead
       ++ [ReqResetWriteIdx; ReqRead]) =
      mkJournal [AAAA; BBBB; CCCC] [AAAA; BBBB; CCCC].
Proof.
  assert (Hw : 32 <= 64) by lia.
  destruct (writes_then_reads_keep_order 64 Hw 4 3 [AAAA; BBBB; CCCC])
    as (rb1 & rb2 & rb3 & j1 & _ & _ & Ht & _ & Hs & Hsz & _).
  - lia.
  - simpl. lia.
  - lia.
  - vm_compute. intro. discriminate.
  - repeat constructor.
  - exists rb2, j1. split; [exact Hs |]. split; [rewrite Ht; reflexivity |].
    split; [exact Hsz | reflexivity].
Defined.

(** The same three items with the last clause of C2 spelled out: the
    third read is dropped and counted, and "CCCC" comes out after a reset
    of the write cursor. *)
Lemma writes_then_reads_all_but_last_witness :
  exists rb j,
    session 64 (map ReqWrite [AAAA; BBBB; CCCC] ++ replicate 3 ReqRead)
      (fresh 64 4 3) no_journal = Some (rb, j) /\
    source j = [AAAA; BBBB; CCCC] /\
    target j = [AAAA; BBBB] /\
    size rb = 1 /\
    dropped_reads rb = 1 /\
    journal_after 64 4 3
      (map ReqWrite [AAAA; BBBB; CCCC] ++ replicate 3 ReqRead
       ++ [ReqResetWriteIdx; ReqRead]) =
      mkJournal [AAAA; BBBB; CCCC] [AAAA; BBBB; CCCC].
Proof.
  assert (Hw : 32 <= 64) by lia.
  destruct (writes_then_reads_all_but_last 64 Hw 4 3 [AAAA; BBBB; CCCC])
    as (rb1 & rb2 & rb3 & rb4 & j1 & _ & Hsrc & Ht & _ & _ & Heq & Hs & Hsz & _).
  - lia.
  - simpl. lia.
  - lia.
  - vm_compute. intro. discriminate.
  - repeat constructor.
  - exists rb2, j1. split; [exact Hs |]. split; [exact Hsrc |].
    split; [rewrite Ht; reflexivity |]. split; [exact Hsz |].
    split; [rewrite Heq; reflexivity | reflexivity].
Defined.

(** ** Where the code departs from the claims *)

(** C2 fails in its last clause: the item left behind does not stay
    unread until the write cursor is reset.  After three writes and three
    reads, "CCCC" is left; [MAX_ALLOWED_READ_DROPS - 1] further reads are
    dropped, and the next one is forced and delivers it, while the write
    cursor stands on slot 2 and was never reset. *)
Lemma last_item_read_without_realignment :
  let items := [AAAA; BBBB; CCCC] in
  let rs :=
    map ReqWrite items ++ replicate 3 ReqRead
    ++ replicate (Z.to_nat (MAX_ALLOWED_READ_DROPS - 1)) ReqRead
    ++ [ReqRead] in
  NoDup items /\
  exists rb j,
    session 64 rs (fresh 64 4 3) no_journal = Some (rb, j) /\
    source j = items /\
    target j = items /\
    write_idx rb = 2 /\
    write_idx rb <> SIZE_MAX 64.
Proof.
  cbv zeta. split.
  { rewrite !NoDup_cons, !elem_of_cons, !elem_of_nil.
    split_and!; try apply NoDup_nil_2; intros H;
      repeat (destruct H as [H | H]; [discriminate |]); exact H. }
  set (start := map ReqWrite [AAAA; BBBB; CCCC] ++ replicate 3 ReqRead).
  set (rb2 := state_after 64 4 3 start).
  set (j2 := journal_after 64 4 3 start).
  assert (H1 : session 64 start (fresh 64 4 3) no_journal = Some (rb2, j2))
    by (vm_compute; reflexivity).
  rewrite app_assoc. fold start. rewrite session_app, H1, session_app.
  rewrite (reads_threshold_mode 64 (Z.to_nat (MAX_ALLOWED_READ_DROPS - 1))
             rb2 j2).
  - eexists _, _. split; [vm_compute; reflexivity |].
    split; [reflexivity |]. split; [reflexivity |]. split; [reflexivity |].
    vm_compute. discriminate.
  - reflexivity.
  - reflexivity.
  - reflexivity.
  - vm_compute. intro. discriminate.
  - right. vm_compute. intro. discriminate.
Qed.

(** C3 fails: sizes of zero are accepted, and the object that comes back
    has no storage at all. *)
Lemma ctor_accepts_degenerate_sizes :
  (0 < 1 \/ 0 < 1) /\
  ThreadSafeRingBuffer_ctor 64 heap_of_examples 0 0 =
    Constructed (mkRingBuffer [] 0 0 0 (2 ^ 64 - 1) (2 ^ 64 - 1) 0 true) /\
  ThreadSafeRingBuffer_ctor 64 heap_of_examples 0 0 <> Rejected /\
  ThreadSafeRingBuffer_ctor 64 heap_of_examples 0 3 <> Rejected /\
  ThreadSafeRingBuffer_ctor 64 heap_of_examples 4 0 <> Rejected.
Proof.
  split; [left; lia |]. split; [reflexivity |].
  split; [discriminate |]. split; discriminate.
Qed.

(** What the constructor does refuse: a storage beyond
    [std::vector]'s [max_size()], a storage the allocator does not grant,
    and with them a size of [-1], which arrives as [SIZE_MAX].  A product
    that wraps to 0 is constructed, with no storage. *)
Lemma ctor_rejects_with_vector :
  ThreadSafeRingBuffer_ctor 64 heap_of_examples (2 ^ 64 - 1) 1 = Rejected /\
  ThreadSafeRingBuffer_ctor 64 heap_of_examples (2 ^ 35) 1 = Rejected /\
  ThreadSafeRingBuffer_ctor 64 heap_of_examples (-1) 1 = Rejected /\
  ThreadSafeRingBuffer_ctor 64 heap_of_examples (2 ^ 32) (2 ^ 32) =
    Constructed
      (mkRingBuffer [] (2 ^ 32) (2 ^ 32) 0 (SIZE_MAX 64) (SIZE_MAX 64) 0 true).
Proof. split_and!; reflexivity. Qed.

(** Four-byte items and no slot to put them in. *)
Lemma degenerate_sizes_are_constructed_witness :
  ThreadSafeRingBuffer_ctor 64 heap_of_examples 4 0 =
    Constructed (mkRingBuffer [] 4 0 0 (SIZE_MAX 64) (SIZE_MAX 64) 0 true) /\
  ThreadSafeRingBuffer_ctor 64 heap_of_examples 4 0 <> Rejected.
Proof.
  assert (Hw : 32 <= 64) by lia.
  assert (Hs : 0 <= 4 <= SIZE_MAX 64)
    by (vm_compute; split; intro; discriminate).
  assert (Hc : 0 <= 0 <= SIZE_MAX 64)
    by (vm_compute; split; intro; discriminate).
  assert (Hd : 4 < 1 \/ 0 < 1) by (right; lia).
  destruct (degenerate_sizes_are_constructed 64 heap_of_examples Hw 4 0
              Hs Hc Hd) as (_ & Hnot & _).
  split; [reflexivity | exact Hnot].
Defined.

(** C8 fails: after four overwriting writes into three slots and a
    reset of the write cursor, three reads bring the occupancy to 0, so
    [empty()] is true on a buffer that is not fresh, while "AAAA" was
    written and never read. *)
Lemma empty_with_an_item_never_read :
  exists rb j,
    session 64
      [ReqWriteOverwrite AAAA; ReqWriteOverwrite BBBB; ReqWriteOverwrite CCCC;
       ReqWriteOverwrite DDDD; ReqResetWriteIdx;
       ReqReadTimeout 1; ReqReadTimeout 1; ReqReadTimeout 1]
      (fresh 64 4 3) no_journal = Some (rb, j) /\
    empty rb = true /\
    source j = [AAAA; BBBB; CCCC; DDDD] /\
    target j = [DDDD; BBBB; CCCC] /\
    ~ In AAAA (target j) /\
    rb <> fresh 64 4 3.
Proof.
  eexists _, _. split; [vm_compute; reflexivity |].
  split; [reflexivity |]. split; [reflexivity |]. split; [reflexivity |].
  split.
  - simpl. intros [H | [H | [H | []]]]; discriminate.
  - discriminate.
Qed.

(** The same with the public interface only: a dropped [write_nonblock]
    clears the flag, [MAX_ALLOWED_READ_DROPS] polls are suppressed, and
    the three that follow empty the buffer without "AAAA" ever coming
    out. *)
Lemma empty_with_an_item_never_read_public :
  let rs :=
    [ReqWriteOverwrite AAAA; ReqWriteOverwrite BBBB; ReqWriteOverwrite CCCC;
     ReqWriteOverwrite DDDD; ReqWriteNonblock AAAA] in
  let r :=
    poll 64 (Z.to_nat MAX_ALLOWED_READ_DROPS + 3) consume
      (state_after 64 4 3 rs) (journal_after 64 4 3 rs) in
  empty (fst r) = true /\
  source (snd r) = [AAAA; BBBB; CCCC; DDDD] /\
  target (snd r) = [DDDD; BBBB; CCCC].
Proof.
  cbv zeta. rewrite poll_app.
  rewrite (poll_threshold_mode 64 consume (Z.to_nat MAX_ALLOWED_READ_DROPS)).
  - vm_compute. auto.
  - reflexivity.
  - reflexivity.
  - reflexivity.
  - vm_compute. intro. discriminate.
  - right. vm_compute. intro. discriminate.
Qed.

(** ** The further statements at work on the buffer of the tests *)

Lemma size_within_capacity_witness :
  exists rb j,
    session 64
      [ReqWriteOverwrite AAAA; ReqWriteOverwrite BBBB; ReqWriteOverwrite CCCC;
       ReqWriteOverwrite DDDD; ReqResetWriteIdx; ReqReadNonblock]
      (fresh 64 4 3) no_journal = Some (rb, j) /\
    0 <= size rb <= capacity rb /\
    capacity rb = 3.
Proof.
  assert (Hw : 32 <= 64) by lia.
  assert (Hok : occupancy_ok 64 (fresh 64 4 3)).
  { unfold occupancy_ok. vm_compute. repeat split; intro; discriminate. }
  eexists _, _. split; [vm_compute; reflexivity |].
  refine (size_within_capacity 64 Hw
            (map to_call
               [ReqWriteOverwrite AAAA; ReqWriteOverwrite BBBB;
                ReqWriteOverwrite CCCC; ReqWriteOverwrite DDDD;
                ReqResetWriteIdx; ReqReadNonblock])
            (fresh 64 4 3) no_journal _ _ Hok _).
  vm_compute. reflexivity.
Defined.

Lemma callbacks_stay_in_bounds_witness :
  exists rb j,
    session 64
      [ReqWriteOverwrite AAAA; ReqWriteOverwrite BBBB; ReqWriteOverwrite CCCC;
       ReqWriteOverwrite DDDD; ReqResetWriteIdx; ReqReadNonblock]
      (fresh 64 4 3) no_journal = Some (rb, j) /\
    Z.of_nat (length (buffer rb)) = 4 * 3 /\
    next_slot_in_bounds 64 WriteIdx rb /\
    next_slot_in_bounds 64 ReadIdx rb.
Proof.
  assert (Hw : 32 <= 64) by lia.
  assert (Hs : 1 <= 4) by lia.
  assert (Hc : 1 <= 3) by lia.
  assert (Hm : 4 * 3 <= SIZE_MAX 64) by (vm_compute; intro; discriminate).
  eexists _, _. split; [vm_compute; reflexivity |].
  refine ((fun H => conj (proj1 (proj2 (proj2 H)))
                      (proj2 (proj2 (proj2 (proj2 (proj2 H))))))
            (callbacks_stay_in_bounds 64 Hw
               (map to_call
                  [ReqWriteOverwrite AAAA; ReqWriteOverwrite BBBB;
                   ReqWriteOverwrite CCCC; ReqWriteOverwrite DDDD;
                   ReqResetWriteIdx; ReqReadNonblock])
               4 3 no_journal _ _ Hs Hc Hm _)).
  vm_compute. reflexivity.
Defined.

Lemma producer_and_consumer_keep_apart_witness :
  exists rb j,
    session 64 [ReqWrite AAAA; ReqWriteOverwrite BBBB; ReqWriteNonblock CCCC]
      (fresh 64 4 3) no_journal = Some (rb, j) /\
    read_idx rb = read_idx (fresh 64 4 3) /\
    dropped_reads rb = dropped_reads (fresh 64 4 3).
Proof.
  eexists _, _. split; [vm_compute; reflexivity |].
  refine (proj1 (producer_and_consumer_keep_apart 64
            (map to_call
               [ReqWrite AAAA; ReqWriteOverwrite BBBB; ReqWriteNonblock CCCC])
            (fresh 64 4 3) no_journal _ _ _) _).
  - vm_compute. reflexivity.
  - reflexivity.
Defined.

(** "AAAA" written into the first slot leaves the second slot alone;
    "AAAABBBB" written through the same pointer fills the second slot
    too. *)
Lemma calls_touch_one_slot_witness :
  let rb := fst (perform_write 64 (produce AAAA) (fresh 64 4 3) no_journal) in
  let rb' :=
    fst (perform_write 64 (produce (AAAA ++ BBBB)) (fresh 64 4 3) no_journal) in
  slot_at 0 rb = AAAA /\
  slot_at 4 rb = slot_at 4 (fresh 64 4 3) /\
  slot_at 8 rb = slot_at 8 (fresh 64 4 3) /\
  slot_at 4 (fresh 64 4 3) = [x00; x00; x00; x00] /\
  slot_at 0 rb' = AAAA /\
  slot_at 4 rb' = BBBB.
Proof.
  cbv zeta.
  assert (Hw : 32 <= 64) by lia.
  assert (Hok : in_storage 64 (fresh 64 4 3)).
  { unfold in_storage. split; [vm_compute; intro; discriminate |].
    split; [vm_compute; intro; discriminate |].
    split; [vm_compute; intro; discriminate |].
    split; [reflexivity |].
    split; left; reflexivity. }
  destruct (calls_touch_one_slot 64 Hw (fresh 64 4 3) no_journal AAAA Hok)
    as (_ & _ & Hfit & _ & _).
  destruct (Hfit eq_refl) as [Hslot Hothers].
  destruct (calls_touch_one_slot 64 Hw (fresh 64 4 3) no_journal
              (AAAA ++ BBBB) Hok) as (_ & _ & _ & Hover & _).
  destruct (Hover eq_refl eq_refl) as [Hfirst Hnext].
  split; [exact Hslot |].
  split; [refine (Hothers 1 _ _); vm_compute;
          [split; [intro; discriminate | reflexivity] | discriminate] |].
  split; [refine (Hothers 2 _ _); vm_compute;
          [split; [intro; discriminate | reflexivity] | discriminate] |].
  split; [reflexivity |].
  split; [exact Hfirst | exact Hnext].
Defined.

Lemma push_pop_round_trip_witness :
  let rb := state_after 64 4 3 [ReqWrite AAAA] in
  active_items_count rb = 1 /\
  active_items_count (pop 64 (push 64 rb)) = active_items_count rb /\
  active_items_count (push 64 (pop 64 rb)) = active_items_count rb.
Proof.
  cbv zeta. set (rb := state_after 64 4 3 [ReqWrite AAAA]).
  assert (Hw : 32 <= 64) by lia.
  assert (Hc : capacity rb <= 2 ^ 31) by (vm_compute; intro; discriminate).
  assert (H1 : 0 <= active_items_count rb < capacity rb)
    by (vm_compute; split; [intro; discriminate | reflexivity]).
  assert (H2 : 1 <= active_items_count rb <= capacity rb)
    by (vm_compute; split; intro; discriminate).
  destruct (push_pop_round_trip 64 Hw rb Hc) as [Ha Hb].
  split; [reflexivity |]. split; [exact (Ha H1) | exact (Hb H2)].
Defined.

Lemma writes_beyond_capacity_block_witness :
  session 64 (map ReqWrite [AAAA; BBBB; CCCC; DDDD]) (fresh 64 4 3) no_journal
  = None.
Proof.
  assert (Hw : 32 <= 64) by lia.
  refine (proj1 (writes_beyond_capacity_block 64 Hw 4 3
                   [AAAA; BBBB; CCCC; DDDD] _ _ _ _ _)).
  - lia.
  - lia.
  - vm_compute. intro. discriminate.
  - repeat constructor.
  - simpl. lia.
Defined.

(** A lone item polled again and again, the read cursor reset in
    between: two reads dropped and counted. *)
Lemma drop_counter_bounded_witness :
  exists rb j,
    session 64 [ReqWrite AAAA; ReqRead; ReqResetReadIdx; ReqReadNonblock]
      (fresh 64 4 3) no_journal = Some (rb, j) /\
    dropped_reads rb = 2 /\
    0 <= dropped_reads rb <= MAX_ALLOWED_READ_DROPS /\
    should_always_drop_reads rb = false.
Proof.
  eexists _, _. split; [vm_compute; reflexivity |].
  split; [reflexivity |].
  refine ((fun H => conj (proj1 H) (proj1 (proj2 (proj2 H)) eq_refl))
            (drop_counter_bounded 64
               (map to_call
                  [ReqWrite AAAA; ReqRead; ReqResetReadIdx; ReqReadNonblock])
               4 3 no_journal _ _ _ _ _ _ _)).
  - lia.
  - lia.
  - vm_compute. intro. discriminate.
  - reflexivity.
  - vm_compute. reflexivity.
Defined.

Lemma fill_then_drain_witness :
  exists rb1 rb2 rb3,
    session 64 (map ReqWrite [AAAA; BBBB; CCCC]) (fresh 64 4 3) no_journal =
      Some (rb1, mkJournal [AAAA; BBBB; CCCC] []) /\
    full rb1 = true /\
    read 64 consume rb1 (mkJournal [AAAA; BBBB; CCCC] []) =
      Some (rb2, mkJournal [AAAA; BBBB; CCCC] [AAAA]) /\
    session 64 [ReqResetWriteIdx; ReqRead; ReqRead] rb2
      (mkJournal [AAAA; BBBB; CCCC] [AAAA]) =
      Some (rb3, mkJournal [AAAA; BBBB; CCCC] [AAAA; BBBB; CCCC]) /\
    empty rb3 = true.
Proof.
  assert (Hw : 32 <= 64) by lia.
  destruct (fill_then_drain 64 Hw 4 3 [AAAA; BBBB; CCCC])
    as (rb1 & rb2 & rb3 & H1 & _ & H2 & H3 & _ & _ & _ & H4 & H5 & _).
  - lia.
  - lia.
  - vm_compute. intro. discriminate.
  - repeat constructor.
  - reflexivity.
  - exists rb1, rb2, rb3.
    split; [exact H1 |]. split; [exact H2 |]. split; [exact H3 |].
    split; [exact H4 | exact H5].
Defined.

Lemma nonblocking_keeps_first_items_witness :
  exists rb,
    session 64
      (map ReqWriteNonblock [AAAA; BBBB; CCCC; DDDD]
       ++ ReqResetWriteIdx :: replicate 4 ReqReadNonblock)
      (fresh 64 4 3) no_journal =
      Some (rb, mkJournal [AAAA; BBBB; CCCC] [AAAA; BBBB; CCCC]) /\
    empty rb = true.
Proof.
  assert (Hw : 32 <= 64) by lia.
  refine (nonblocking_keeps_first_items 64 Hw 4 3 [AAAA; BBBB; CCCC; DDDD]
            (replicate 4 ReqReadNonblock) _ _ _ _ _ _).
  - lia.
  - lia.
  - vm_compute. intro. discriminate.
  - repeat constructor.
  - reflexivity.
  - simpl. lia.
Defined.

Lemma overwrite_keeps_last_items_witness :
  exists rb j,
    session 64
      (map ReqWriteOverwrite [AAAA; BBBB; CCCC; DDDD]
       ++ ReqResetWriteIdx :: replicate 3 (ReqReadTimeout 1))
      (fresh 64 4 3) no_journal = Some (rb, j) /\
    target j !! 0%nat = Some DDDD /\
    target j !! 1%nat = Some BBBB /\
    target j !! 2%nat = Some CCCC /\
    empty rb = true.
Proof.
  assert (Hw : 32 <= 64) by lia.
  destruct (overwrite_keeps_last_items 64 Hw 4 3 [AAAA; BBBB; CCCC; DDDD]
              (replicate 3 (ReqReadTimeout 1)))
    as (rb & j & Hrun & _ & _ & Hall & He).
  - lia.
  - lia.
  - vm_compute. intro. discriminate.
  - repeat constructor.
  - simpl. lia.
  - reflexivity.
  - simpl. lia.
  - exists rb, j. split; [exact Hrun |].
    split; [exact (Hall 0 ltac:(lia)) |].
    split; [exact (Hall 1 ltac:(lia)) |].
    split; [exact (Hall 2 ltac:(lia)) | exact He].
Defined.

Lemma starved_reader_counter_wraps_witness :
  let rb := state_after 64 4 3 [ReqWriteOverwrite AAAA] in
  poll 64 2 consume rb no_journal = (set_dropped_reads 2 rb, no_journal).
Proof.
  cbv zeta. set (rb := state_after 64 4 3 [ReqWriteOverwrite AAAA]).
  assert (He : empty rb = false) by reflexivity.
  assert (Hc : read_collides 64 rb = true) by reflexivity.
  assert (Hf : should_always_drop_reads rb = true) by reflexivity.
  assert (Hd : 0 <= dropped_reads rb <= UINT32_MAX)
    by (vm_compute; split; intro; discriminate).
  destruct (starved_reader_counter_wraps 64 consume rb no_journal He Hc Hf Hd)
    as (Hall & _).
  exact (Hall 2%nat).
Defined.

Lemma reset_cursors_replay_slots_witness :
  let rb :=
    state_after 64 4 3 [ReqWrite AAAA; ReqWrite BBBB; ReqWrite CCCC; ReqRead] in
  exists rb',
    session 64
      (ReqResetWriteIdx :: ReqResetReadIdx :: replicate 3 ReqReadNonblock)
      rb no_journal = Some (rb', mkJournal [] [AAAA; BBBB]) /\
    size rb' = 0 /\
    buffer rb' = AAAA ++ BBBB ++ CCCC.
Proof.
  cbv zeta.
  set (rb := state_after 64 4 3
               [ReqWrite AAAA; ReqWrite BBBB; ReqWrite CCCC; ReqRead]).
  assert (Hw : 32 <= 64) by lia.
  assert (Hok : in_storage 64 rb).
  { unfold in_storage. split; [vm_compute; intro; discriminate |].
    split; [vm_compute; intro; discriminate |].
    split; [vm_compute; intro; discriminate |].
    split; [reflexivity |].
    split; right; vm_compute; split; (reflexivity || (intro; discriminate)). }
  assert (Hc : capacity rb <= 2 ^ 31) by (vm_compute; intro; discriminate).
  assert (Hn : 0 <= active_items_count rb <= capacity rb)
    by (vm_compute; split; intro; discriminate).
  destruct (reset_cursors_replay_slots 64 Hw rb no_journal
              (replicate 3 ReqReadNonblock) Hok Hc Hn eq_refl)
    as (rb' & Hrun & Hsz & Hbuf).
  exists rb'. split; [exact Hrun |]. split; [exact Hsz |].
  rewrite Hbuf. reflexivity.
Defined.

(** Six items through three slots: the cursors go round the ring twice. *)
Lemma stream_keeps_order_witness :
  exists rb,
    session 64
      (ReqWrite AAAA
       :: in_step [BBBB; CCCC; DDDD; AAAA; BBBB]
       ++ [ReqResetWriteIdx; ReqRead])
      (fresh 64 4 3) no_journal =
      Some (rb, mkJournal [AAAA; BBBB; CCCC; DDDD; AAAA; BBBB]
                  [AAAA; BBBB; CCCC; DDDD; AAAA; BBBB]) /\
    empty rb = true.
Proof.
  assert (Hw : 32 <= 64) by lia.
  refine (stream_keeps_order 64 Hw 4 3 AAAA [BBBB; CCCC; DDDD; AAAA; BBBB]
            _ _ _ _).
  - lia.
  - lia.
  - vm_compute. intro. discriminate.
  - repeat constructor.
Defined.

End RingBuffer.
